(** * quantish-server core: key custody, request signing, Safe address derivation

    A shallow embedding of the TypeScript sources
      - packages/core/src/crypto/hmac.ts        (HMAC signing, API keys)
      - packages/core/src/crypto/key-vault.ts   (KeyVault, AES-256-GCM)
      - packages/core/src/wallet/key-generator.ts (predictSafeAddress)
      - packages/core/src/wallet/safe-deployer.ts (calculateSafeAddress)
      - packages/core/src/relayer/client.ts     (RelayerClient.relay)

    Conventions.  A byte is a [Z] in [0, 256); a [Buffer] is a [list Z].
    A JavaScript string is the list of its UTF-16 code units, each a [Z]
    in [0, 65536).  The primitives the sources import from node's [crypto]
    module and from [ethers] (SHA-256, HMAC, Keccak-256, AES-256-GCM, base64,
    hex, UTF-8, the ABI coder, CREATE2) are written out so that every
    function of the embedding evaluates on concrete inputs. *)

From Stdlib Require Import String Ascii ZArith List Bool Lia.
Import ListNotations.
Local Open Scope Z_scope.
#[local] Set Warnings "-register-all".

(* ================================================================== *)
(** ** Buffers *)

Module Buf.

Definition bytes := list Z.

Definition is_byte (b : Z) : Prop := 0 <= b < 256.
Definition wf (bs : bytes) : Prop := Forall is_byte bs.

Definition len (bs : bytes) : Z := Z.of_nat (length bs).

(** [n]-byte big-endian image of [z mod 2^(8n)]. *)
Fixpoint be (n : nat) (z : Z) : bytes :=
  match n with
  | O => []
  | S k => be k (z / 256) ++ [z mod 256]
  end.

(** [n]-byte little-endian image. *)
Fixpoint le (n : nat) (z : Z) : bytes :=
  match n with
  | O => []
  | S k => z mod 256 :: le k (z / 256)
  end.

Definition of_be (bs : bytes) : Z := fold_left (fun acc b => acc * 256 + b) bs 0.
Definition of_le (bs : bytes) : Z := fold_right (fun b acc => b + 256 * acc) 0 bs.

Definition xor (a b : bytes) : bytes := map (fun p => Z.lxor (fst p) (snd p)) (combine a b).

Fixpoint chunks_fuel (fuel : nat) (n : nat) (bs : bytes) : list bytes :=
  match fuel with
  | O => []
  | S f =>
      match bs with
      | [] => []
      | _ => firstn n bs :: chunks_fuel f n (skipn n bs)
      end
  end.

(** Consecutive blocks of [n] bytes, the last one possibly shorter. *)
Definition chunks (n : nat) (bs : bytes) : list bytes := chunks_fuel (length bs) n bs.

Definition zeros (n : nat) : bytes := repeat 0 n.

Fixpoint eqb (a b : bytes) : bool :=
  match a, b with
  | [], [] => true
  | x :: a', y :: b' => Z.eqb x y && eqb a' b'
  | _, _ => false
  end.

End Buf.

(* ================================================================== *)
(** ** JavaScript strings, hexadecimal *)

Module Js.

(** A string is its sequence of UTF-16 code units. *)
Definition jsstring := list Z.

Definition is_unit (u : Z) : Prop := 0 <= u < 65536.

Fixpoint lit (s : string) : jsstring :=
  match s with
  | EmptyString => []
  | String c r => Z.of_N (N_of_ascii c) :: lit r
  end.

Definition hexdigit (d : Z) : Z := if d <? 10 then 48 + d else 87 + d.

(** [buf.toString('hex')]: two lower-case digits per byte. *)
Definition to_hex (bs : Buf.bytes) : jsstring :=
  flat_map (fun b => [hexdigit (b / 16); hexdigit (b mod 16)]) bs.

Definition unhex (c : Z) : option Z :=
  if (48 <=? c) && (c <=? 57) then Some (c - 48)
  else if (97 <=? c) && (c <=? 102) then Some (c - 87)
  else if (65 <=? c) && (c <=? 70) then Some (c - 55)
  else None.

Definition is_hex_char (c : Z) : bool :=
  match unhex c with Some _ => true | None => false end.

(** [Buffer.from(s, 'hex')]: pairs of digits, stopping at the first pair
    that is not hexadecimal; a trailing single digit is dropped. *)
Fixpoint from_hex (s : jsstring) : Buf.bytes :=
  match s with
  | a :: b :: r =>
      match unhex a, unhex b with
      | Some h, Some l => (16 * h + l) :: from_hex r
      | _, _ => []
      end
  | _ => []
  end.

(** [s.substring(0, n)]. *)
Definition substring0 (n : nat) (s : jsstring) : jsstring := firstn n s.

Fixpoint starts_with (p s : jsstring) : bool :=
  match p, s with
  | [], _ => true
  | x :: p', y :: s' => Z.eqb x y && starts_with p' s'
  | _ :: _, [] => false
  end.

End Js.

(* ================================================================== *)
(** ** Keccak-256 (ethers.utils.keccak256) *)

Module Keccak.

Definition mask64 : Z := 0xFFFFFFFFFFFFFFFF.

Definition rotl64 (x : Z) (n : Z) : Z :=
  Z.land (Z.lor (Z.shiftl x n) (Z.shiftr x (64 - n))) mask64.

Definition RC : list Z :=
  [ 0x0000000000000001; 0x0000000000008082; 0x800000000000808A; 0x8000000080008000;
    0x000000000000808B; 0x0000000080000001; 0x8000000080008081; 0x8000000000008009;
    0x000000000000008A; 0x0000000000000088; 0x0000000080008009; 0x000000008000000A;
    0x000000008000808B; 0x800000000000008B; 0x8000000000008089; 0x8000000000008003;
    0x8000000000008002; 0x8000000000000080; 0x000000000000800A; 0x800000008000000A;
    0x8000000080008081; 0x8000000000008080; 0x0000000080000001; 0x8000000080008008 ].

(** Rotation offsets, lane [x + 5y] at position [x + 5y]. *)
Definition ROT : list Z :=
  [  0;  1; 62; 28; 27;
    36; 44;  6; 55; 20;
     3; 10; 43; 25; 39;
    41; 45; 15; 21;  8;
    18;  2; 61; 56; 14 ].

Definition lane (st : list Z) (x y : nat) : Z := nth (x mod 5 + 5 * (y mod 5)) st 0.

Definition coords : list (nat * nat) :=
  flat_map (fun y => map (fun x => (x, y)) (seq 0 5)) (seq 0 5).

Definition theta (st : list Z) : list Z :=
  let C := map (fun x => fold_left Z.lxor (map (fun y => lane st x y) (seq 0 5)) 0) (seq 0 5) in
  let D := map (fun x => Z.lxor (nth ((x + 4) mod 5) C 0) (rotl64 (nth ((x + 1) mod 5) C 0) 1))
               (seq 0 5) in
  map (fun p => Z.lxor (lane st (fst p) (snd p)) (nth (fst p) D 0)) coords.

(** rho and pi together: B[y, 2x+3y] = rot(A[x, y]); read backwards, the
    lane at (X, Y) comes from x = (X + 3Y) mod 5, y = X. *)
Definition rho_pi (st : list Z) : list Z :=
  map (fun p =>
         let X := fst p in let Y := snd p in
         let x := ((X + 3 * Y) mod 5)%nat in
         let y := X in
         rotl64 (lane st x y) (nth (x + 5 * y) ROT 0)) coords.

Definition chi (st : list Z) : list Z :=
  map (fun p =>
         let x := fst p in let y := snd p in
         Z.lxor (lane st x y)
                (Z.land (Z.lxor (lane st (x + 1) y) mask64) (lane st (x + 2) y))) coords.

Definition iota (rc : Z) (st : list Z) : list Z :=
  match st with
  | a :: r => Z.lxor a rc :: r
  | [] => []
  end.

Definition round (st : list Z) (rc : Z) : list Z := iota rc (chi (rho_pi (theta st))).

Definition keccak_f (st : list Z) : list Z := fold_left round RC st.

Definition rate : nat := 136.

(** Multi-rate padding; [d] is the domain byte (0x01 for Keccak, 0x06 for
    the later SHA-3 standard). *)
Definition pad (d : Z) (msg : Buf.bytes) : Buf.bytes :=
  let q := (rate - length msg mod rate)%nat in
  if Nat.eqb q 1 then msg ++ [Z.lor d 0x80]
  else msg ++ [d] ++ Buf.zeros (q - 2) ++ [0x80].

Definition block_lanes (blk : Buf.bytes) : list Z :=
  map Buf.of_le (Buf.chunks 8 blk) ++ repeat 0 8.

Definition absorb (st : list Z) (blk : Buf.bytes) : list Z :=
  keccak_f (map (fun p => Z.lxor (fst p) (snd p)) (combine st (block_lanes blk))).

Definition sponge256 (d : Z) (msg : Buf.bytes) : Buf.bytes :=
  let st := fold_left absorb (Buf.chunks rate (pad d msg)) (repeat 0 25) in
  firstn 32 (flat_map (Buf.le 8) st).

Definition keccak256 (msg : Buf.bytes) : Buf.bytes := sponge256 0x01 msg.

End Keccak.

(* ================================================================== *)
(** ** The parts of ethers the wallet code calls *)

Module Ethers.

(** An address argument is modelled by the 160-bit number its hexadecimal
    string denotes; [getAddress] rejects anything else. *)
Definition valid_address (a : Z) : bool := (0 <=? a) && (a <? 2 ^ 160).

Definition AddressZero : Z := 0.

Definition upper (c : Z) : Z := if (97 <=? c) && (c <=? 122) then c - 32 else c.

(** EIP-55 mixed-case form, as [getAddress] returns it. *)
Definition checksum (addr : Buf.bytes) : Js.jsstring :=
  let chars := Js.to_hex addr in
  let h := Js.to_hex (Keccak.keccak256 chars) in
  Js.lit "0x" ++
  map (fun p => if 56 <=? snd p then upper (fst p) else fst p) (combine chars h).

Definition getAddress (a : Z) : option Buf.bytes :=
  if valid_address a then Some (Buf.be 20 a) else None.

(** *** ABI coder *)

Inductive AbiType := TAddress | TUint256 | TBytes | TArray (t : AbiType).

(** JavaScript arguments handed to the coder. *)
Inductive Arg :=
| AAddress (a : Z)           (* an address string *)
| ANumber (n : Z)            (* a number *)
| AData (b : Buf.bytes)      (* a hex data string, '0x' being empty *)
| AArray (l : list Arg).

Fixpoint type_name (t : AbiType) : string :=
  match t with
  | TAddress => "address"
  | TUint256 => "uint256"
  | TBytes => "bytes"
  | TArray e => (type_name e ++ "[]")%string
  end.

Definition is_dynamic (t : AbiType) : bool :=
  match t with
  | TBytes | TArray _ => true
  | _ => false
  end.

Definition pad_right32 (b : Buf.bytes) : Buf.bytes :=
  b ++ Buf.zeros ((32 - length b mod 32) mod 32)%nat.

(** Heads then tails; a dynamic part leaves its offset in the head. *)
Definition pack_parts (parts : list (bool * Buf.bytes)%type) : Buf.bytes :=
  let head_len :=
    fold_left (fun n (p : (bool * Buf.bytes)%type) =>
                 n + (if fst p then 32 else Buf.len (snd p))) parts 0 in
  let ht :=
    fold_left
      (fun (acc : (Buf.bytes * Buf.bytes)%type) (p : (bool * Buf.bytes)%type) =>
         let (h, t) := acc in
         if fst p then (h ++ Buf.be 32 (head_len + Buf.len t), t ++ snd p)
         else (h ++ snd p, t))
      parts ([], []) in
  fst ht ++ snd ht.

Fixpoint sequence {A} (l : list (option A)) : option (list A) :=
  match l with
  | [] => Some []
  | Some x :: r => option_map (cons x) (sequence r)
  | None :: _ => None
  end.

Fixpoint encode1 (t : AbiType) (v : Arg) {struct v} : option Buf.bytes :=
  match t, v with
  | TAddress, AAddress a => option_map (fun b => Buf.zeros 12 ++ b) (getAddress a)
  | TUint256, ANumber n
  | TUint256, AAddress n =>
      if (0 <=? n) && (n <? 2 ^ 256) then Some (Buf.be 32 n) else None
  | TBytes, AData b => Some (Buf.be 32 (Buf.len b) ++ pad_right32 b)
  | TArray e, AArray l =>
      option_map
        (fun parts => Buf.be 32 (Z.of_nat (length l))
                        ++ pack_parts (map (pair (is_dynamic e)) parts))
        (sequence (map (encode1 e) l))
  | _, _ => None
  end.

(** [defaultAbiCoder.encode(types, values)]. *)
Definition encode (ts : list AbiType) (vs : list Arg) : option Buf.bytes :=
  if Nat.eqb (length ts) (length vs) then
    option_map
      (fun parts => pack_parts (combine (map is_dynamic ts) parts))
      (sequence (map (fun p => encode1 (fst p) (snd p)) (combine ts vs)))
  else None.

Fixpoint join (sep : string) (l : list string) : string :=
  match l with
  | [] => ""%string
  | [x] => x
  | x :: r => (x ++ sep ++ join sep r)%string
  end.

(** A function fragment, already parsed: its name and parameter types. *)
Record Fragment := { fname : string; inputs : list AbiType }.

Definition sighash (f : Fragment) : Buf.bytes :=
  firstn 4 (Keccak.keccak256
              (Js.lit (fname f ++ "(" ++ join "," (map type_name (inputs f)) ++ ")")%string)).

(** [new Interface([fragment]).encodeFunctionData(name, values)]. *)
Definition encodeFunctionData (f : Fragment) (vs : list Arg) : option Buf.bytes :=
  option_map (app (sighash f)) (encode (inputs f) vs).

(** *** solidityPack *)

Inductive PackType := PBytes32 | PUint256 | PBytes.

Definition pack1 (t : PackType) (v : Arg) : option Buf.bytes :=
  match t, v with
  | PBytes32, AData b => if Nat.eqb (length b) 32 then Some b else None
  | PBytes, AData b => Some b
  | PUint256, ANumber n
  | PUint256, AAddress n =>
      (* BigNumber.from(v).toTwos(256), then zeroPad to 32 bytes *)
      let n' := if n <? 0 then n + 2 ^ 256 else n in
      if (0 <=? n') && (n' <? 2 ^ 256) then Some (Buf.be 32 n') else None
  | _, _ => None
  end.

Definition solidityPack (ts : list PackType) (vs : list Arg) : option Buf.bytes :=
  if Nat.eqb (length ts) (length vs) then
    option_map (@concat Z) (sequence (map (fun p => pack1 (fst p) (snd p)) (combine ts vs)))
  else None.

(** [getCreate2Address(from, salt, initCodeHash)]. *)
Definition getCreate2Address (from : Z) (salt initCodeHash : Buf.bytes) : option Js.jsstring :=
  if negb (Nat.eqb (length salt) 32) then None
  else if negb (Nat.eqb (length initCodeHash) 32) then None
  else
    match getAddress from with
    | Some f =>
        Some (checksum (skipn 12 (Keccak.keccak256 ([0xff] ++ f ++ salt ++ initCodeHash))))
    | None => None
    end.

End Ethers.

(* ================================================================== *)
(** ** wallet/key-generator.ts and wallet/safe-deployer.ts *)

Module Wallet.
Import Ethers.

(** Error-propagating bind: a throwing ethers call aborts the function. *)
Notation "'let?' x ':=' e 'in' k" :=
  (match e with Some x => k | None => None end)
    (at level 10, x name, e at level 100, k at level 200).

Definition POLYGON_safeProxyFactory : Z := 0xaacFeEa03eb1561C4e67d661e40682Bd20E3541b.
Definition POLYGON_safeSingleton : Z := 0x69f4D1788e39c87893C980c06EdF4b7f686e2938.

(** The proxy creation bytecode literal; both source files carry the same
    486 bytes. *)
Definition proxyBytecode : Buf.bytes :=
  Js.from_hex (Js.lit "608060405234801561001057600080fd5b506040516101e63803806101e68339818101604052602081101561003357600080fd5b8101908080519060200190929190505050600073ffffffffffffffffffffffffffffffffffffffff168173ffffffffffffffffffffffffffffffffffffffff1614156100ca576040517f08c379a00000000000000000000000000000000000000000000000000000000081526004018080602001828103825260228152602001806101c46022913960400191505060405180910390fd5b806000806101000a81548173ffffffffffffffffffffffffffffffffffffffff021916908373ffffffffffffffffffffffffffffffffffffffff1602179055505060ab806101196000396000f3fe608060405273ffffffffffffffffffffffffffffffffffffffff600054167fa619486e0000000000000000000000000000000000000000000000000000000060003514156050578060005260206000f35b3660008037600080366000845af43d6000803e60008114156070573d6000fd5b3d6000f3fea264697066735822122003d1488ee65e08fa41e58e888a9865554c535f2c77126a82cb4c0f917f31441364736f6c63430007060033496e76616c69642073696e676c65746f6e20616464726573732070726f7669646564").

(** key-generator.ts, [predictSafeAddress]. *)
Definition predictSafeAddress (eoaAddress safeProxyFactory safeSingleton : Z)
  : option Js.jsstring :=
  let? initializerData :=
    encode
      [TArray TAddress; TUint256; TAddress; TBytes; TAddress; TAddress; TUint256; TAddress]
      [ AArray [AAddress eoaAddress];
        ANumber 1;
        AAddress AddressZero;
        AData [];
        AAddress AddressZero;
        AAddress AddressZero;
        ANumber 0;
        AAddress AddressZero ] in
  let? packed :=
    solidityPack [PBytes32; PUint256]
                 [AData (Keccak.keccak256 initializerData); ANumber 0] in
  let salt := Keccak.keccak256 packed in
  let? proxyCreationCode :=
    solidityPack [PBytes; PUint256] [AData proxyBytecode; AAddress safeSingleton] in
  getCreate2Address safeProxyFactory salt (Keccak.keccak256 proxyCreationCode).

(** With the default parameter values of the source. *)
Definition predictSafeAddress_default (eoaAddress : Z) : option Js.jsstring :=
  predictSafeAddress eoaAddress
    0xaacFeEa03eb1561C4e67d661e40682Bd20E3541b
    0x69f4D1788e39c87893C980c06EdF4b7f686e2938.

Definition setup_fragment : Fragment :=
  {| fname := "setup";
     inputs := [TArray TAddress; TUint256; TAddress; TBytes;
                TAddress; TAddress; TUint256; TAddress] |}.

(** safe-deployer.ts, [calculateSafeAddress]. *)
Definition calculateSafeAddress (ownerAddress proxyFactory singleton : Z)
  : option Js.jsstring :=
  let? setupData :=
    encodeFunctionData setup_fragment
      [ AArray [AAddress ownerAddress];
        ANumber 1;
        AAddress AddressZero;
        AData [];
        AAddress AddressZero;
        AAddress AddressZero;
        ANumber 0;
        AAddress AddressZero ] in
  let saltNonce := 0 in
  let? packed :=
    solidityPack [PBytes32; PUint256]
                 [AData (Keccak.keccak256 setupData); ANumber saltNonce] in
  let salt := Keccak.keccak256 packed in
  let? initCode :=
    solidityPack [PBytes; PUint256] [AData proxyBytecode; AAddress singleton] in
  getCreate2Address proxyFactory salt (Keccak.keccak256 initCode).

Definition calculateSafeAddress_default (ownerAddress : Z) : option Js.jsstring :=
  calculateSafeAddress ownerAddress POLYGON_safeProxyFactory POLYGON_safeSingleton.

End Wallet.

(* ================================================================== *)
(** ** SHA-256 and HMAC-SHA256 (node crypto: createHash, createHmac) *)

Module Sha256.

Definition mask32 : Z := 0xFFFFFFFF.
Definition add32 (a b : Z) : Z := (a + b) mod 2 ^ 32.
Definition rotr32 (x n : Z) : Z :=
  Z.land (Z.lor (Z.shiftr x n) (Z.shiftl x (32 - n))) mask32.

(** Trial division, enough for the first 64 primes. *)
Definition is_prime (n : nat) : bool :=
  forallb (fun d => negb (Nat.eqb (n mod d) 0)) (seq 2 (n - 2)).

Definition primes64 : list Z := map Z.of_nat (filter is_prime (seq 2 310)).

(** Largest [x] below 2^bits with x^3 <= n, bit by bit from the top. *)
Fixpoint cube_root (bits : nat) (n x : Z) : Z :=
  match bits with
  | O => x
  | S b =>
      let y := x + 2 ^ Z.of_nat b in
      cube_root b n (if y * y * y <=? n then y else x)
  end.

(** The round constants: the first 32 bits of the fractional parts of the
    cube roots of the first 64 primes. *)
Definition K : list Z :=
  Eval vm_compute in map (fun p => cube_root 36 (p * 2 ^ 96) 0 mod 2 ^ 32) primes64.

(** The initial hash value: the same of the square roots of the first 8
    primes. *)
Definition H0 : list Z :=
  Eval vm_compute in map (fun p => Z.sqrt (p * 2 ^ 64) mod 2 ^ 32) (firstn 8 primes64).

Definition ssig0 x := Z.lxor (Z.lxor (rotr32 x 7) (rotr32 x 18)) (Z.shiftr x 3).
Definition ssig1 x := Z.lxor (Z.lxor (rotr32 x 17) (rotr32 x 19)) (Z.shiftr x 10).
Definition bsig0 x := Z.lxor (Z.lxor (rotr32 x 2) (rotr32 x 13)) (rotr32 x 22).
Definition bsig1 x := Z.lxor (Z.lxor (rotr32 x 6) (rotr32 x 11)) (rotr32 x 25).
Definition ch x y z := Z.lxor (Z.land x y) (Z.land (Z.lxor x mask32) z).
Definition maj x y z := Z.lxor (Z.lxor (Z.land x y) (Z.land x z)) (Z.land y z).

(** The message schedule, newest word first: [rev_w] holds W[t-1], W[t-2], ... *)
Fixpoint extend (n : nat) (rev_w : list Z) : list Z :=
  match n with
  | O => rev_w
  | S k =>
      let w := add32 (add32 (ssig1 (nth 1 rev_w 0)) (nth 6 rev_w 0))
                     (add32 (ssig0 (nth 14 rev_w 0)) (nth 15 rev_w 0)) in
      extend k (w :: rev_w)
  end.

Definition schedule (blk : Buf.bytes) : list Z :=
  rev (extend 48 (rev (map Buf.of_be (Buf.chunks 4 blk)))).

Definition step (s : list Z) (kw : Z * Z) : list Z :=
  match s with
  | [a; b; c; d; e; f; g; h] =>
      let t1 := add32 (add32 (add32 h (bsig1 e)) (add32 (ch e f g) (fst kw))) (snd kw) in
      let t2 := add32 (bsig0 a) (maj a b c) in
      [add32 t1 t2; a; b; c; add32 d t1; e; f; g]
  | _ => s
  end.

Definition compress (h : list Z) (blk : Buf.bytes) : list Z :=
  map (fun p => add32 (fst p) (snd p))
      (combine h (fold_left step (combine K (schedule blk)) h)).

Definition pad (msg : Buf.bytes) : Buf.bytes :=
  let l := length msg in
  msg ++ [0x80] ++ Buf.zeros ((119 - l mod 64) mod 64)%nat ++ Buf.be 8 (8 * Z.of_nat l).

Definition sha256 (msg : Buf.bytes) : Buf.bytes :=
  flat_map (Buf.be 4) (fold_left compress (Buf.chunks 64 (pad msg)) H0).

Definition hmac (key msg : Buf.bytes) : Buf.bytes :=
  let k0 := if (64 <? length key)%nat then sha256 key else key in
  let k := k0 ++ Buf.zeros (64 - length k0) in
  let ipad := map (Z.lxor 0x36) k in
  let opad := map (Z.lxor 0x5c) k in
  sha256 (opad ++ sha256 (ipad ++ msg)).

End Sha256.

(* ================================================================== *)
(** ** Text encodings of node's Buffer: UTF-8 and base64 *)

Module Utf8.

Definition is_high (u : Z) : bool := (0xD800 <=? u) && (u <=? 0xDBFF).
Definition is_low (u : Z) : bool := (0xDC00 <=? u) && (u <=? 0xDFFF).

Definition replacement : Buf.bytes := [0xEF; 0xBF; 0xBD].

(** [Buffer.from(s, 'utf8')]: a surrogate pair becomes one four-byte
    sequence; an unpaired surrogate is written as U+FFFD. *)
Fixpoint encode (s : Js.jsstring) : Buf.bytes :=
  match s with
  | [] => []
  | u :: r =>
      if u <? 0x80 then u :: encode r
      else if u <? 0x800 then [0xC0 + u / 64; 0x80 + u mod 64] ++ encode r
      else if is_high u then
        match r with
        | v :: r' =>
            if is_low v then
              let cp := 0x10000 + (u - 0xD800) * 1024 + (v - 0xDC00) in
              [0xF0 + cp / 262144; 0x80 + (cp / 4096) mod 64;
               0x80 + (cp / 64) mod 64; 0x80 + cp mod 64] ++ encode r'
            else replacement ++ encode r
        | [] => replacement
        end
      else if is_low u then replacement ++ encode r
      else [0xE0 + u / 4096; 0x80 + (u / 64) mod 64; 0x80 + u mod 64] ++ encode r
  end.

Definition cont (b : Z) : bool := (0x80 <=? b) && (b <=? 0xBF).

(** Admissible second byte after a three-byte lead. *)
Definition second3 (b0 b1 : Z) : bool :=
  if b0 =? 0xE0 then (0xA0 <=? b1) && (b1 <=? 0xBF)
  else if b0 =? 0xED then (0x80 <=? b1) && (b1 <=? 0x9F)
  else cont b1.

(** Admissible second byte after a four-byte lead. *)
Definition second4 (b0 b1 : Z) : bool :=
  if b0 =? 0xF0 then (0x90 <=? b1) && (b1 <=? 0xBF)
  else if b0 =? 0xF4 then (0x80 <=? b1) && (b1 <=? 0x8F)
  else cont b1.

Definition pair_of (cp : Z) : Js.jsstring :=
  [0xD800 + (cp - 0x10000) / 1024; 0xDC00 + (cp - 0x10000) mod 1024].

(** [buf.toString('utf8')]: every maximal ill-formed prefix is replaced by
    one U+FFFD; a code point above U+FFFF becomes a surrogate pair. *)
Fixpoint decode (bs : Buf.bytes) : Js.jsstring :=
  match bs with
  | [] => []
  | b0 :: r =>
      if (0 <=? b0) && (b0 <? 0x80) then b0 :: decode r
      else if (0xC2 <=? b0) && (b0 <=? 0xDF) then
        match r with
        | b1 :: r1 =>
            if cont b1 then ((b0 - 0xC0) * 64 + (b1 - 0x80)) :: decode r1
            else 0xFFFD :: decode r
        | [] => [0xFFFD]
        end
      else if (0xE0 <=? b0) && (b0 <=? 0xEF) then
        match r with
        | b1 :: r1 =>
            if second3 b0 b1 then
              match r1 with
              | b2 :: r2 =>
                  if cont b2 then
                    ((b0 - 0xE0) * 4096 + (b1 - 0x80) * 64 + (b2 - 0x80)) :: decode r2
                  else 0xFFFD :: decode r1
              | [] => [0xFFFD]
              end
            else 0xFFFD :: decode r
        | [] => [0xFFFD]
        end
      else if (0xF0 <=? b0) && (b0 <=? 0xF4) then
        match r with
        | b1 :: r1 =>
            if second4 b0 b1 then
              match r1 with
              | b2 :: r2 =>
                  if cont b2 then
                    match r2 with
                    | b3 :: r3 =>
                        if cont b3 then
                          pair_of ((b0 - 0xF0) * 262144 + (b1 - 0x80) * 4096
                                   + (b2 - 0x80) * 64 + (b3 - 0x80)) ++ decode r3
                        else 0xFFFD :: decode r2
                    | [] => [0xFFFD]
                    end
                  else 0xFFFD :: decode r1
              | [] => [0xFFFD]
              end
            else 0xFFFD :: decode r
        | [] => [0xFFFD]
        end
      else 0xFFFD :: decode r
  end.

(** Strings whose surrogates all come in high-low pairs. *)
Fixpoint well_formed (s : Js.jsstring) : bool :=
  match s with
  | [] => true
  | u :: r =>
      if negb ((0 <=? u) && (u <? 65536)) then false
      else if is_high u then
        match r with
        | v :: r' => is_low v && well_formed r'
        | [] => false
        end
      else negb (is_low u) && well_formed r
  end.

End Utf8.

Module Base64.

(** The digit for a six-bit value; [url] selects the URL-safe alphabet. *)
Definition digit (url : bool) (v : Z) : Z :=
  if v <? 26 then 65 + v
  else if v <? 52 then 97 + (v - 26)
  else if v <? 62 then 48 + (v - 52)
  else if v =? 62 then (if url then 45 else 43)
  else (if url then 95 else 47).

Definition pad_char : Z := 61.

Definition is_sextet (v : Z) : Prop := 0 <= v < 64.

(** Six-bit values of a byte sequence, the last group zero-filled. *)
Fixpoint sextets_of (bs : Buf.bytes) : list Z :=
  match bs with
  | a :: b :: c :: r =>
      [a / 4; (a mod 4) * 16 + b / 16; (b mod 16) * 4 + c / 64; c mod 64] ++ sextets_of r
  | [a; b] => [a / 4; (a mod 4) * 16 + b / 16; (b mod 16) * 4]
  | [a] => [a / 4; (a mod 4) * 16]
  | [] => []
  end.

(** [buf.toString('base64')]: padded with '=' to a multiple of four. *)
Definition encode (bs : Buf.bytes) : Js.jsstring :=
  map (digit false) (sextets_of bs) ++ repeat pad_char ((3 - length bs mod 3) mod 3)%nat.

(** [buf.toString('base64url')]: URL-safe alphabet, no padding. *)
Definition encode_url (bs : Buf.bytes) : Js.jsstring :=
  map (digit true) (sextets_of bs).

(** The decoder accepts both alphabets. *)
Definition unbase64 (c : Z) : option Z :=
  if (65 <=? c) && (c <=? 90) then Some (c - 65)
  else if (97 <=? c) && (c <=? 122) then Some (c - 97 + 26)
  else if (48 <=? c) && (c <=? 57) then Some (c - 48 + 52)
  else if (c =? 43) || (c =? 45) then Some 62
  else if (c =? 47) || (c =? 95) then Some 63
  else None.

(** Decoding stops at the first '='; characters outside the alphabets
    (white space, anything else) are skipped. *)
Fixpoint sextets (s : Js.jsstring) : list Z :=
  match s with
  | [] => []
  | c :: r =>
      if c =? pad_char then []
      else match unbase64 c with
           | Some v => v :: sextets r
           | None => sextets r
           end
  end.

Fixpoint group (l : list Z) : Buf.bytes :=
  match l with
  | a :: b :: c :: d :: r =>
      [a * 4 + b / 16; (b mod 16) * 16 + c / 4; (c mod 4) * 64 + d] ++ group r
  | [a; b; c] => [a * 4 + b / 16; (b mod 16) * 16 + c / 4]
  | [a; b] => [a * 4 + b / 16]
  | _ => []
  end.

(** [Buffer.from(s, 'base64')]. *)
Definition decode (s : Js.jsstring) : Buf.bytes := group (sextets s).

End Base64.

(* ================================================================== *)
(** ** JavaScript values: truthiness, number printing, JSON.stringify *)

Module Json.

(** Numbers: the integers (exactly representable ones), and the special
    values that matter for truthiness and for JSON. *)
Inductive JsNum := NInt (z : Z) | NNegZero | NNaN | NInf (negative : bool).

Inductive JsValue :=
| JUndefined
| JNull
| JBool (b : bool)
| JNum (n : JsNum)
| JStr (s : Js.jsstring)
| JArr (items : list JsValue)
| JObj (props : list (Js.jsstring * JsValue)).

(** ToBoolean. *)
Definition truthy (v : JsValue) : bool :=
  match v with
  | JUndefined | JNull => false
  | JBool b => b
  | JNum (NInt z) => negb (z =? 0)
  | JNum NNegZero | JNum NNaN => false
  | JNum (NInf _) => true
  | JStr s => match s with [] => false | _ => true end
  | JArr _ | JObj _ => true
  end.

(** [a || b]. *)
Definition or_else (a b : JsValue) : JsValue := if truthy a then a else b.

Fixpoint digits_fuel (fuel : nat) (n : Z) (acc : Js.jsstring) : Js.jsstring :=
  match fuel with
  | O => acc
  | S f =>
      if n <? 10 then (48 + n) :: acc
      else digits_fuel f (n / 10) ((48 + n mod 10) :: acc)
  end.

(** Decimal digits of a natural number. *)
Definition digits (n : Z) : Js.jsstring := digits_fuel (S (Z.to_nat (Z.log2 n))) n [].

(** Number-to-string for an integer (below 10^21 in magnitude, where
    JavaScript prints all digits). *)
Definition int_to_string (z : Z) : Js.jsstring :=
  if z <? 0 then 45 :: digits (- z) else digits z.

Definition num_to_json (n : JsNum) : Js.jsstring :=
  match n with
  | NInt z => int_to_string z
  | NNegZero => Js.lit "0"
  | NNaN | NInf _ => Js.lit "null"
  end.

Definition u_escape (c : Z) : Js.jsstring :=
  Js.lit "\u" ++ Js.to_hex [c / 256; c mod 256].

Definition quote_unit (c : Z) : Js.jsstring :=
  if c =? 8 then Js.lit "\b"
  else if c =? 9 then Js.lit "\t"
  else if c =? 10 then Js.lit "\n"
  else if c =? 12 then Js.lit "\f"
  else if c =? 13 then Js.lit "\r"
  else if c =? 34 then [92; 34]
  else if c =? 92 then [92; 92]
  else if c <? 32 then u_escape c
  else [c].

(** QuoteJSONString without the enclosing quotes: unpaired surrogates are
    escaped, pairs are kept. *)
Fixpoint quote_body (s : Js.jsstring) : Js.jsstring :=
  match s with
  | [] => []
  | u :: r =>
      if Utf8.is_high u then
        match r with
        | v :: r' => if Utf8.is_low v then u :: v :: quote_body r'
                     else u_escape u ++ quote_body r
        | [] => u_escape u
        end
      else if Utf8.is_low u then u_escape u ++ quote_body r
      else quote_unit u ++ quote_body r
  end.

Definition quote (s : Js.jsstring) : Js.jsstring := [34] ++ quote_body s ++ [34].

Fixpoint join (sep : Js.jsstring) (l : list Js.jsstring) : Js.jsstring :=
  match l with
  | [] => []
  | [x] => x
  | x :: r => x ++ sep ++ join sep r
  end.

Definition or_null (o : option Js.jsstring) : Js.jsstring :=
  match o with Some s => s | None => Js.lit "null" end.

(** [JSON.stringify(v)] without indentation; [None] is the result
    [undefined].  Object properties are listed in enumeration order, and
    those with an [undefined] value are left out. *)
Fixpoint stringify (v : JsValue) : option Js.jsstring :=
  match v with
  | JUndefined => None
  | JNull => Some (Js.lit "null")
  | JBool true => Some (Js.lit "true")
  | JBool false => Some (Js.lit "false")
  | JNum n => Some (num_to_json n)
  | JStr s => Some (quote s)
  | JArr items =>
      Some ([91] ++ join [44] (map (fun x => or_null (stringify x)) items) ++ [93])
  | JObj props =>
      Some ([123]
              ++ join [44]
                   (flat_map
                      (fun kv =>
                         match stringify (snd kv) with
                         | Some s => [quote (fst kv) ++ [58] ++ s]
                         | None => []
                         end) props)
              ++ [125])
  end.

(** A template literal prints [undefined] as the word. *)
Definition template (o : option Js.jsstring) : Js.jsstring :=
  match o with Some s => s | None => Js.lit "undefined" end.

Fixpoint str_eqb (a b : Js.jsstring) : bool :=
  match a, b with
  | [], [] => true
  | x :: a', y :: b' => Z.eqb x y && str_eqb a' b'
  | _, _ => false
  end.

Fixpoint lookup (k : Js.jsstring) (props : list (Js.jsstring * JsValue)) : JsValue :=
  match props with
  | [] => JUndefined
  | (k', v) :: r => if str_eqb k k' then v else lookup k r
  end.

End Json.

(* ================================================================== *)
(** ** crypto/hmac.ts *)

Module Hmac.
Import Json.

Inductive Method := GET | POST | PUT | DELETE.

Definition method_string (m : Method) : Js.jsstring :=
  match m with
  | GET => Js.lit "GET"
  | POST => Js.lit "POST"
  | PUT => Js.lit "PUT"
  | DELETE => Js.lit "DELETE"
  end.

(** [Omit<HmacSignatureInput, 'secret'>]; an absent body is [JUndefined]. *)
Record Envelope := {
  method : Method;
  path : Js.jsstring;
  body : JsValue;
  timestamp : Z
}.

Record HmacSignatureInput := { env : Envelope; secret : Js.jsstring }.

Definition createHmacSignature (input : HmacSignatureInput) : Js.jsstring :=
  let e := env input in
  let bodyString := if truthy (body e) then template (stringify (body e)) else [] in
  let message :=
    int_to_string (timestamp e) ++ method_string (method e) ++ path e ++ bodyString in
  let signature :=
    Base64.encode (Sha256.hmac (Utf8.encode (secret input)) (Utf8.encode message)) in
  signature.

Record VerifyResult := { valid : bool; reason : option Js.jsstring }.

Definition expired_reason (timeDiff max_allowed : Z) : Js.jsstring :=
  Js.lit "Request timestamp expired. Time difference: " ++ int_to_string timeDiff
    ++ Js.lit "ms, max allowed: " ++ int_to_string max_allowed ++ Js.lit "ms".

(** [now] is the value [Date.now()] returns inside the call. *)
Definition verifyHmacSignature (now : Z) (signature : Js.jsstring) (input : Envelope)
           (secret : Js.jsstring) (validityWindowSeconds : Z) : VerifyResult :=
  let requestTime := timestamp input in
  let timeDiff := Z.abs (now - requestTime) in
  if timeDiff >? validityWindowSeconds * 1000 then
    {| valid := false;
       reason := Some (expired_reason timeDiff (validityWindowSeconds * 1000)) |}
  else
    let expectedSignature := createHmacSignature {| env := input; secret := secret |} in
    let signatureBuffer := Base64.decode signature in
    let expectedBuffer := Base64.decode expectedSignature in
    if negb (Nat.eqb (length signatureBuffer) (length expectedBuffer)) then
      {| valid := false; reason := Some (Js.lit "Invalid signature length") |}
    else
      let isValid := Buf.eqb signatureBuffer expectedBuffer in
      if negb isValid then
        {| valid := false; reason := Some (Js.lit "Signature mismatch") |}
      else {| valid := true; reason := None |}.

Definition default_validity_window : Z := 30.

Record ApiKey := { key : Js.jsstring; keyPrefix : Js.jsstring; keyHash : Js.jsstring }.

(** [random24] is the value of [crypto.randomBytes(24)]. *)
Definition generateApiKey (prefix : Js.jsstring) (random24 : Buf.bytes) : ApiKey :=
  let randomPart := Base64.encode_url random24 in
  let key := prefix ++ Js.lit "_" ++ randomPart in
  let keyPrefix := Js.substring0 12 key in
  let keyHash := Js.to_hex (Sha256.sha256 (Utf8.encode key)) in
  {| key := key; keyPrefix := keyPrefix; keyHash := keyHash |}.

Definition default_prefix : Js.jsstring := Js.lit "qnt".

Definition hashApiKey (key : Js.jsstring) : Js.jsstring :=
  Js.to_hex (Sha256.sha256 (Utf8.encode key)).

End Hmac.

(* ================================================================== *)
(** ** relayer/client.ts *)

Module Relayer.
Import Json.

(** What a rejected promise or a [throw] carries: an [Error] with its
    message, or some other value. *)
Inductive Thrown := ThrownError (message : Js.jsstring) | ThrownOther.

(** A computation that returns or throws. *)
Inductive Completion (A : Type) := Return (a : A) | Throw (e : Thrown).
Arguments Return {A} a.
Arguments Throw {A} e.

Definition bind {A B} (c : Completion A) (k : A -> Completion B) : Completion B :=
  match c with
  | Return a => k a
  | Throw e => Throw e
  end.

Notation "'await' x '<-' c ';' k" := (bind c (fun x => k))
  (at level 10, x name, c at level 100, k at level 200).

(** [try { body } catch (error) { handler }]. *)
Definition try_catch {A} (body : Completion A) (handler : Thrown -> Completion A)
  : Completion A :=
  match body with
  | Return a => Return a
  | Throw e => handler e
  end.

(** The response object [fetch] resolves to, by what its accessors give. *)
Record Response := {
  status : Z;
  text : Completion Js.jsstring;      (* response.text() *)
  json : Completion JsValue           (* response.json() *)
}.

Definition ok (r : Response) : bool := (200 <=? status r) && (status r <=? 299).

Record RelayerResponse := {
  success : bool;
  txHash : option JsValue;            (* [None]: the property is absent *)
  error : option Js.jsstring
}.

(** Reading a property that none of the built-in prototypes defines. *)
Definition get (v : JsValue) (k : string) : Completion JsValue :=
  match v with
  | JUndefined =>
      Throw (ThrownError (Js.lit "Cannot read properties of undefined (reading '"
                            ++ Js.lit k ++ Js.lit "')"))
  | JNull =>
      Throw (ThrownError (Js.lit "Cannot read properties of null (reading '"
                            ++ Js.lit k ++ Js.lit "')"))
  | JObj props => Return (lookup (Js.lit k) props)
  | _ => Return JUndefined
  end.

(** [relay]; [fetched] is the outcome of the [fetch] call, a rejection
    standing for a network failure or for the abort at the timeout.  The
    request that was sent plays no part in how the outcome is reported. *)
Definition relay (fetched : Completion Response) : Completion RelayerResponse :=
  try_catch
    (await response <- fetched;
     if negb (ok response) then
       await error <- text response;
       Return {| success := false;
                 txHash := None;
                 error := Some (Js.lit "Relayer error: " ++ int_to_string (status response)
                                  ++ Js.lit " - " ++ error) |}
     else
       await result <- json response;
       (* result.txHash || result.transactionHash *)
       await a <- get result "txHash";
       await hash <- (if truthy a then Return a else get result "transactionHash");
       Return {| success := true; txHash := Some hash; error := None |})
    (fun error =>
       Return {| success := false;
                 txHash := None;
                 error := Some (match error with
                                | ThrownError message => message
                                | ThrownOther => Js.lit "Unknown relayer error"
                                end) |}).

End Relayer.

(* ================================================================== *)
(** ** AES-256 and GCM (node crypto: createCipheriv('aes-256-gcm', ...)) *)

Module Aes.

Definition xtime (b : Z) : Z :=
  Z.lxor ((2 * b) mod 256) (if 128 <=? b then 0x1b else 0).

(** Product in GF(2^8) modulo x^8 + x^4 + x^3 + x + 1. *)
Fixpoint gmul_fuel (n : nat) (a b : Z) : Z :=
  match n with
  | O => 0
  | S k => Z.lxor (if Z.odd b then a else 0) (gmul_fuel k (xtime a) (b / 2))
  end.

Definition gmul (a b : Z) : Z := gmul_fuel 8 a b.

Fixpoint gpow (x : Z) (n : nat) : Z :=
  match n with
  | O => 1
  | S k => gmul x (gpow x k)
  end.

Definition rotl8 (b n : Z) : Z := (b * 2 ^ n) mod 256 + b / 2 ^ (8 - n).

Definition sbox_calc (x : Z) : Z :=
  let i := gpow x 254 in
  Z.lxor (Z.lxor (Z.lxor (Z.lxor (Z.lxor i (rotl8 i 1)) (rotl8 i 2)) (rotl8 i 3)) (rotl8 i 4))
         0x63.

Definition sbox_table : list Z :=
  Eval vm_compute in map (fun n => sbox_calc (Z.of_nat n)) (seq 0 256).

Definition sbox (x : Z) : Z := nth (Z.to_nat x) sbox_table 0.

Definition xor_n (n : nat) (a b : Buf.bytes) : Buf.bytes :=
  map (fun i => Z.lxor (nth i a 0) (nth i b 0)) (seq 0 n).

Definition sub_word (w : Buf.bytes) : Buf.bytes := map sbox w.

Definition rot_word (w : Buf.bytes) : Buf.bytes :=
  match w with
  | a :: r => r ++ [a]
  | [] => []
  end.

Fixpoint rcon (i : nat) : Z :=
  match i with
  | O | S O => 1
  | S k => xtime (rcon k)
  end.

(** Key expansion for Nk = 8: word [i] from words [i-1] and [i-8]. *)
Fixpoint expand (n : nat) (i : nat) (ws : list Buf.bytes) : list Buf.bytes :=
  match n with
  | O => ws
  | S k =>
      let prev := nth (i - 1) ws [] in
      let temp :=
        if Nat.eqb (i mod 8) 0 then
          xor_n 4 (sub_word (rot_word prev)) [rcon (i / 8); 0; 0; 0]
        else if Nat.eqb (i mod 8) 4 then sub_word prev
        else prev in
      expand k (S i) (ws ++ [xor_n 4 (nth (i - 8) ws []) temp])
  end.

Definition key_schedule (key : Buf.bytes) : list Buf.bytes :=
  expand 52 8 (Buf.chunks 4 key).

Definition round_key (ks : list Buf.bytes) (r : nat) : Buf.bytes :=
  flat_map (fun j => nth (4 * r + j) ks []) (seq 0 4).

(** The state is kept in input order: row [r], column [c] at [r + 4c]. *)
Definition shift_rows (st : Buf.bytes) : Buf.bytes :=
  map (fun i => nth (i mod 4 + 4 * ((i / 4 + i mod 4) mod 4)) st 0) (seq 0 16).

Definition mix_columns (st : Buf.bytes) : Buf.bytes :=
  flat_map
    (fun c =>
       let a0 := nth (4 * c) st 0 in
       let a1 := nth (4 * c + 1) st 0 in
       let a2 := nth (4 * c + 2) st 0 in
       let a3 := nth (4 * c + 3) st 0 in
       [ Z.lxor (Z.lxor (gmul a0 2) (gmul a1 3)) (Z.lxor a2 a3);
         Z.lxor (Z.lxor a0 (gmul a1 2)) (Z.lxor (gmul a2 3) a3);
         Z.lxor (Z.lxor a0 a1) (Z.lxor (gmul a2 2) (gmul a3 3));
         Z.lxor (Z.lxor (gmul a0 3) a1) (Z.lxor a2 (gmul a3 2)) ])
    (seq 0 4).

Definition cipher (ks : list Buf.bytes) (blk : Buf.bytes) : Buf.bytes :=
  let s0 := xor_n 16 blk (round_key ks 0) in
  let s13 :=
    fold_left
      (fun s r => xor_n 16 (mix_columns (shift_rows (map sbox s))) (round_key ks r))
      (seq 1 13) s0 in
  xor_n 16 (shift_rows (map sbox s13)) (round_key ks 14).

Definition encrypt_block (key blk : Buf.bytes) : Buf.bytes := cipher (key_schedule key) blk.

End Aes.

Module Gcm.

Definition R : Z := Z.shiftl 0xE1 120.

(** Product in GF(2^128), a block read as a big-endian number whose top
    bit is the coefficient of x^0. *)
Fixpoint mul_loop (n : nat) (x v z : Z) : Z :=
  match n with
  | O => z
  | S k =>
      let z' := if Z.testbit x (Z.of_nat k) then Z.lxor z v else z in
      let v' := if Z.testbit v 0 then Z.lxor (Z.shiftr v 1) R else Z.shiftr v 1 in
      mul_loop k x v' z'
  end.

Definition gf_mul (x y : Z) : Z := mul_loop 128 x y 0.

Definition ghash (H : Z) (data : Buf.bytes) : Z :=
  fold_left (fun y blk => gf_mul (Z.lxor y (Buf.of_be blk)) H) (Buf.chunks 16 data) 0.

Definition pad16 (bs : Buf.bytes) : Buf.bytes :=
  bs ++ Buf.zeros ((16 - length bs mod 16) mod 16)%nat.

Definition bitlen (bs : Buf.bytes) : Z := 8 * Z.of_nat (length bs).

(** The pre-counter block. *)
Definition j0 (H : Z) (iv : Buf.bytes) : Z :=
  if Nat.eqb (length iv) 12 then Buf.of_be (iv ++ [0; 0; 0; 1])
  else ghash H (pad16 iv ++ Buf.be 8 0 ++ Buf.be 8 (bitlen iv)).

(** The counter [n] steps after [j], stepping the low 32 bits. *)
Definition ctr (j : Z) (n : Z) : Z :=
  (j / 2 ^ 32) * 2 ^ 32 + (j mod 2 ^ 32 + n) mod 2 ^ 32.

Definition keystream (E : Buf.bytes -> Buf.bytes) (j : Z) (nblocks : nat) : Buf.bytes :=
  flat_map (fun i => E (Buf.be 16 (ctr j (Z.of_nat i)))) (seq 1 nblocks).

Definition nblocks (bs : Buf.bytes) : nat := ((length bs + 15) / 16)%nat.

Definition gctr (E : Buf.bytes -> Buf.bytes) (j : Z) (data : Buf.bytes) : Buf.bytes :=
  Buf.xor data (keystream E j (nblocks data)).

(** The 16-byte tag over the ciphertext, no associated data. *)
Definition tag (E : Buf.bytes -> Buf.bytes) (H j : Z) (c : Buf.bytes) : Buf.bytes :=
  let s := ghash H (pad16 c ++ Buf.be 8 0 ++ Buf.be 8 (bitlen c)) in
  Buf.be 16 (Z.lxor (Buf.of_be (E (Buf.be 16 j))) s).

Definition encrypt (key iv plain : Buf.bytes) : Buf.bytes * Buf.bytes :=
  let E := Aes.cipher (Aes.key_schedule key) in
  let H := Buf.of_be (E (Buf.zeros 16)) in
  let j := j0 H iv in
  let c := gctr E j plain in
  (c, tag E H j c).

(** [None]: the tag does not authenticate the ciphertext. *)
Definition decrypt (key iv c t : Buf.bytes) : option Buf.bytes :=
  let E := Aes.cipher (Aes.key_schedule key) in
  let H := Buf.of_be (E (Buf.zeros 16)) in
  let j := j0 H iv in
  if Buf.eqb t (tag E H j c) then Some (gctr E j c) else None.

End Gcm.

(* ================================================================== *)
(** ** crypto/key-vault.ts *)

Module KeyVault.

(** A call returns a value or throws [new Error(message)]. *)
Inductive Result (A : Type) := Ok (a : A) | Err (message : Js.jsstring).
Arguments Ok {A} a.
Arguments Err {A} message.

Definition bind {A B} (r : Result A) (k : A -> Result B) : Result B :=
  match r with
  | Ok a => k a
  | Err m => Err m
  end.

Notation "'do' x '<-' c ';' k" := (bind c (fun x => k))
  (at level 10, x name, c at level 100, k at level 200).

Record t := { masterKey : Buf.bytes }.

Definition ivLength : nat := 16.
Definition authTagLength : nat := 16.

(** What [config.masterKey] can be. *)
Inductive MasterKeyArg :=
| KeyBuffer (b : Buf.bytes)
| KeyString (s : Js.jsstring)
| KeyOther                 (* present, neither a Buffer nor a string *)
| KeyAbsent.               (* no 'masterKey' property *)

(** [/^[0-9a-fA-F]+$/.test(key) && key.length === 64]. *)
Definition is_hex64 (key : Js.jsstring) : bool :=
  (negb (Nat.eqb (length key) 0) && forallb Js.is_hex_char key) && Nat.eqb (length key) 64.

Definition parseKey (key : Js.jsstring) : Result Buf.bytes :=
  if is_hex64 key then Ok (Js.from_hex key)
  else
    let base64 := Base64.decode key in
    if Nat.eqb (length base64) 32 then Ok base64
    else Err (Js.lit "Master key must be 32 bytes as hex (64 chars) or base64 (44 chars)").


Definition constructor (config : MasterKeyArg) : Result t :=
  do masterKey <-
     match config with
     | KeyBuffer b => Ok b
     | KeyString s => parseKey s
     | KeyOther => Err (Js.lit "masterKey must be a Buffer or string")
     | KeyAbsent => Err (Js.lit "masterKey is required")
     end;
  if negb (Nat.eqb (length masterKey) 32) then
    Err (Js.lit "Master key must be 32 bytes (256 bits), got "
           ++ Json.int_to_string (Z.of_nat (length masterKey)) ++ Js.lit " bytes")
  else Ok {| masterKey := masterKey |}.

Record EncryptedData := {
  encrypted : Js.jsstring;
  iv : Js.jsstring;
  authTag : Js.jsstring
}.

(** [createCipheriv] / [createDecipheriv] for 'aes-256-gcm': the key and
    the IV are checked when the object is made. *)
Definition check_key_iv (key iv : Buf.bytes) : Result unit :=
  if negb (Nat.eqb (length key) 32) then Err (Js.lit "Invalid key length")
  else if Nat.eqb (length iv) 0 then Err (Js.lit "Invalid initialization vector")
  else Ok tt.

(** The base64 string decoder behind [update(.., 'base64')] and
    [final('base64')]: [write] emits whole three-byte groups and keeps the
    rest, [end] flushes what was kept. *)
Definition decoder_write (buf : Buf.bytes) : Js.jsstring * Buf.bytes :=
  let n := (length buf - length buf mod 3)%nat in
  (Base64.encode (firstn n buf), skipn n buf).

Definition decoder_end (kept : Buf.bytes) : Js.jsstring := Base64.encode kept.

(** [encrypt]; [random_iv] is the value of [crypto.randomBytes(ivLength)]. *)
Definition encrypt (v : t) (random_iv : Buf.bytes) (plaintext : Js.jsstring)
  : Result EncryptedData :=
  let iv := random_iv in
  do _ <- check_key_iv (masterKey v) iv;
  let (c, tag) := Gcm.encrypt (masterKey v) iv (Utf8.encode plaintext) in
  let (encrypted, kept) := decoder_write c in
  let encrypted := encrypted ++ decoder_end kept in
  let authTag := tag in
  Ok {| encrypted := encrypted;
        iv := Base64.encode iv;
        authTag := Base64.encode authTag |}.

Definition decrypt (v : t) (encryptedData : EncryptedData) : Result Js.jsstring :=
  let iv := Base64.decode (iv encryptedData) in
  let authTag := Base64.decode (authTag encryptedData) in
  let encrypted := Base64.decode (encrypted encryptedData) in
  do _ <- check_key_iv (masterKey v) iv;
  (* setAuthTag *)
  if negb (Nat.eqb (length authTag) authTagLength) then
    Err (Js.lit "Invalid authentication tag length: "
           ++ Json.int_to_string (Z.of_nat (length authTag)))
  else
    (* update, then final, which checks the tag *)
    match Gcm.decrypt (masterKey v) iv encrypted authTag with
    | Some decrypted => Ok (Utf8.decode decrypted)
    | None => Err (Js.lit "Unsupported state or unable to authenticate data")
    end.

End KeyVault.

(* ================================================================== *)
(** ** The address derivation as the specification words it *)

Module SafeSpec.

(** A 256-bit ABI word. *)
Definition word (z : Z) : Buf.bytes := Buf.be 32 z.

(** First four bytes of the hash of the [setup] signature. *)
Definition setup_selector : Buf.bytes := [0xb6; 0x3e; 0x80; 0x0d].

(** The call [setup([owner], 1, 0, '', 0, 0, 0, 0)] laid out by hand:
    eight head words (the two dynamic arguments by offset), then the
    owners array (length 1, the owner) and the empty data (length 0). *)
Definition setupCalldata (owner : Z) : Buf.bytes :=
  setup_selector
    ++ concat (map word [ 0x100; 1; 0; 0x140; 0; 0; 0; 0;   (* head *)
                          1; owner;                          (* owners *)
                          0 ]).                              (* data *)

(** salt = keccak256(keccak256(setupCalldata) ++ uint256(0)). *)
Definition salt (owner : Z) : Buf.bytes :=
  Keccak.keccak256 (Keccak.keccak256 (setupCalldata owner) ++ word 0).

(** initCode = proxyCreationBytecode ++ abiEncode(singleton). *)
Definition initCode (singleton : Z) : Buf.bytes :=
  Wallet.proxyBytecode ++ word singleton.

(** CREATE2: the low 20 bytes of keccak256(0xff ++ deployer ++ salt ++ codeHash). *)
Definition create2 (deployer : Z) (salt codeHash : Buf.bytes) : Buf.bytes :=
  skipn 12 (Keccak.keccak256 ([0xff] ++ Buf.be 20 deployer ++ salt ++ codeHash)).

Definition address (owner proxyFactory singleton : Z) : Buf.bytes :=
  create2 proxyFactory (salt owner) (Keccak.keccak256 (initCode singleton)).

End SafeSpec.

(* ================================================================== *)
(** ** Concrete inputs used by the examples below *)

Module Samples.
Import Json Hmac.

Definition sample_envelope : Envelope :=
  {| method := POST;
     path := Js.lit "/v1/orders";
     body := JObj [(Js.lit "side", JStr (Js.lit "buy")); (Js.lit "size", JNum (NInt 10))];
     timestamp := 1700000000000 |}.

Definition sample_secret : Js.jsstring := Js.lit "c2VjcmV0LXNlY3JldA==".

Definition response_500 : Relayer.Response :=
  {| Relayer.status := 500;
     Relayer.text := Relayer.Return (Js.lit "upstream down");
     Relayer.json :=
       Relayer.Throw (Relayer.ThrownError (Js.lit "Unexpected token u in JSON at position 0")) |}.

Definition body_with_hash : JsValue :=
  JObj [(Js.lit "transactionHash", JStr (Js.lit "0xabc123"))].

Definition response_with_hash : Relayer.Response :=
  {| Relayer.status := 200;
     Relayer.text := Relayer.Return (template (stringify body_with_hash));
     Relayer.json := Relayer.Return body_with_hash |}.

Definition response_empty_object : Relayer.Response :=
  {| Relayer.status := 200;
     Relayer.text := Relayer.Return (Js.lit "{}");
     Relayer.json := Relayer.Return (JObj []) |}.

Definition sample_owner : Z := 0x5aAeb6053F3E94C9b9A09f33669435E7Ef1BeAed.

Definition sample_vault : KeyVault.t :=
  {| KeyVault.masterKey := map Z.of_nat (seq 0 32) |}.

Definition sample_iv : Buf.bytes := map Z.of_nat (seq 100 16).

(** "pk " followed by a euro sign and an emoji (a surrogate pair). *)
Definition sample_plaintext : Js.jsstring :=
  Js.lit "pk " ++ [0x20AC; 0xD83D; 0xDE00].

(** A string holding one unpaired high surrogate. *)
Definition lone_surrogate : Js.jsstring := [0xD800].

End Samples.

(* ================================================================== *)
(** ** crypto/hmac.ts, the remaining functions *)

Module HmacHeaders.
Import Json Hmac.

Record HmacConfig := {
  apiKey : Js.jsstring;
  apiSecret : Js.jsstring;
  validityWindow : option Z
}.

(** [SignedRequest['headers']]. *)
Record SignedHeaders := {
  X_Quantish_Key : Js.jsstring;
  X_Quantish_Timestamp : Js.jsstring;
  X_Quantish_Signature : Js.jsstring
}.

(** [createSignedHeaders]; [now] is the value of [Date.now()]. *)
Definition createSignedHeaders (now : Z) (config : HmacConfig) (method : Method)
           (path : Js.jsstring) (body : JsValue) : SignedHeaders :=
  let timestamp := now in
  let signature :=
    createHmacSignature
      {| env := {| Hmac.method := method; Hmac.path := path; Hmac.body := body;
                   Hmac.timestamp := timestamp |};
         secret := apiSecret config |} in
  {| X_Quantish_Key := apiKey config;
     X_Quantish_Timestamp := int_to_string timestamp;
     X_Quantish_Signature := signature |}.

(** [generateApiSecret]; [random32] is the value of [crypto.randomBytes(32)]. *)
Definition generateApiSecret (random32 : Buf.bytes) : Js.jsstring :=
  Base64.encode random32.

End HmacHeaders.

(* ================================================================== *)
(** ** SHA-512, HMAC-SHA512 and PBKDF2 (node crypto: pbkdf2Sync) *)

Module Sha512.

Definition mask64 : Z := 0xFFFFFFFFFFFFFFFF.
Definition add64 (a b : Z) : Z := (a + b) mod 2 ^ 64.
Definition rotr64 (x n : Z) : Z :=
  Z.land (Z.lor (Z.shiftr x n) (Z.shiftl x (64 - n))) mask64.

Definition primes80 : list Z := map Z.of_nat (filter Sha256.is_prime (seq 2 408)).

(** The first 64 bits of the fractional parts of the cube roots of the
    first 80 primes. *)
Definition K : list Z :=
  Eval vm_compute in
    map (fun p => Sha256.cube_root 68 (p * 2 ^ 192) 0 mod 2 ^ 64) primes80.

(** The same of the square roots of the first 8 primes. *)
Definition H0 : list Z :=
  Eval vm_compute in map (fun p => Z.sqrt (p * 2 ^ 128) mod 2 ^ 64) (firstn 8 primes80).

Definition ssig0 x := Z.lxor (Z.lxor (rotr64 x 1) (rotr64 x 8)) (Z.shiftr x 7).
Definition ssig1 x := Z.lxor (Z.lxor (rotr64 x 19) (rotr64 x 61)) (Z.shiftr x 6).
Definition bsig0 x := Z.lxor (Z.lxor (rotr64 x 28) (rotr64 x 34)) (rotr64 x 39).
Definition bsig1 x := Z.lxor (Z.lxor (rotr64 x 14) (rotr64 x 18)) (rotr64 x 41).
Definition ch x y z := Z.lxor (Z.land x y) (Z.land (Z.lxor x mask64) z).
Definition maj x y z := Z.lxor (Z.lxor (Z.land x y) (Z.land x z)) (Z.land y z).

(** The message schedule, newest word first. *)
Fixpoint extend (n : nat) (rev_w : list Z) : list Z :=
  match n with
  | O => rev_w
  | S k =>
      let w := add64 (add64 (ssig1 (nth 1 rev_w 0)) (nth 6 rev_w 0))
                     (add64 (ssig0 (nth 14 rev_w 0)) (nth 15 rev_w 0)) in
      extend k (w :: rev_w)
  end.

Definition schedule (blk : Buf.bytes) : list Z :=
  rev (extend 64 (rev (map Buf.of_be (Buf.chunks 8 blk)))).

Definition step (s : list Z) (kw : Z * Z) : list Z :=
  match s with
  | [a; b; c; d; e; f; g; h] =>
      let t1 := add64 (add64 (add64 h (bsig1 e)) (add64 (ch e f g) (fst kw))) (snd kw) in
      let t2 := add64 (bsig0 a) (maj a b c) in
      [add64 t1 t2; a; b; c; add64 d t1; e; f; g]
  | _ => s
  end.

Definition compress (h : list Z) (blk : Buf.bytes) : list Z :=
  map (fun p => add64 (fst p) (snd p))
      (combine h (fold_left step (combine K (schedule blk)) h)).

Definition pad (msg : Buf.bytes) : Buf.bytes :=
  let l := length msg in
  msg ++ [0x80] ++ Buf.zeros ((239 - l mod 128) mod 128)%nat ++ Buf.be 16 (8 * Z.of_nat l).

Definition sha512 (msg : Buf.bytes) : Buf.bytes :=
  flat_map (Buf.be 8) (fold_left compress (Buf.chunks 128 (pad msg)) H0).

Definition hmac (key msg : Buf.bytes) : Buf.bytes :=
  let k0 := if (128 <? length key)%nat then sha512 key else key in
  let k := k0 ++ Buf.zeros (128 - length k0) in
  let ipad := map (Z.lxor 0x36) k in
  let opad := map (Z.lxor 0x5c) k in
  sha512 (opad ++ sha512 (ipad ++ msg)).

End Sha512.

Module Pbkdf2.

(** One output block: U1 xor U2 xor ... xor Uc, with U1 = PRF(P, S ++ INT(i))
    and U(j+1) = PRF(P, Uj). *)
Definition block (prf : Buf.bytes -> Buf.bytes -> Buf.bytes)
           (password salt : Buf.bytes) (iterations : positive) (i : Z) : Buf.bytes :=
  let u1 := prf password (salt ++ Buf.be 4 i) in
  snd (N.iter (Pos.pred_N iterations)
              (fun ut : Buf.bytes * Buf.bytes =>
                 let u := prf password (fst ut) in (u, Buf.xor (snd ut) u))
              (u1, u1)).

(** [keylen] bytes of key from as many blocks as it takes ([hlen] is the
    PRF's output length). *)
Definition derive (prf : Buf.bytes -> Buf.bytes -> Buf.bytes) (hlen : nat)
           (password salt : Buf.bytes) (iterations : positive) (keylen : nat) : Buf.bytes :=
  firstn keylen
         (flat_map (fun i => block prf password salt iterations (Z.of_nat i))
                   (seq 1 ((keylen + hlen - 1) / hlen))).

(** [crypto.pbkdf2Sync(password, salt, iterations, keylen, 'sha512')]. *)
Definition pbkdf2_sha512 (password salt : Buf.bytes) (iterations : positive) (keylen : nat)
  : Buf.bytes :=
  derive Sha512.hmac 64 password salt iterations keylen.

End Pbkdf2.

(* ================================================================== *)
(** ** crypto/key-vault.ts, the static functions *)

Module KeyVaultStatic.

(** [KeyVault.generateMasterKey]; [random32] is [crypto.randomBytes(32)]. *)
Definition generateMasterKey (random32 : Buf.bytes) : Js.jsstring := Js.to_hex random32.

Record DerivedKey := { key : Js.jsstring; salt : Js.jsstring }.

(** [KeyVault.deriveKeyFromPassword]; the optional [salt] is [None] when the
    argument is left out, and [random32] is what [crypto.randomBytes(32)]
    gives when it is called. *)
Definition deriveKeyFromPassword (password : Js.jsstring) (salt : option Js.jsstring)
           (random32 : Buf.bytes) : DerivedKey :=
  let actualSalt :=
    match salt with
    | Some (c :: s) => Js.from_hex (c :: s)     (* a non-empty string is truthy *)
    | Some [] | None => random32
    end in
  let key := Pbkdf2.pbkdf2_sha512 (Utf8.encode password) actualSalt 100000 32 in
  {| key := Js.to_hex key; salt := Js.to_hex actualSalt |}.

End KeyVaultStatic.

(* ================================================================== *)
(** ** More of ethers: hex data, packed hashing, message signing *)

Module EthersSign.

(** [arrayify] of a string: "0x" and an even number of hexadecimal digits;
    anything else throws. *)
Definition arrayify (s : Js.jsstring) : option Buf.bytes :=
  match s with
  | 48 :: 120 :: hex =>
      if forallb Js.is_hex_char hex && Nat.even (length hex) then Some (Js.from_hex hex)
      else None
  | _ => None
  end.

(** The types [solidityPack] is called with in safe-deployer.ts. *)
Inductive PackedType := PkString | PkAddress | PkBytes.

(** A string goes in as its UTF-8 bytes; an address or bytes value as the
    bytes its hex string denotes, with no check of the length. *)
Definition pack1 (t : PackedType) (v : Js.jsstring) : option Buf.bytes :=
  match t with
  | PkString => Some (Utf8.encode v)
  | PkAddress | PkBytes => arrayify v
  end.

Definition solidityPack (ts : list PackedType) (vs : list Js.jsstring) : option Buf.bytes :=
  if Nat.eqb (length ts) (length vs) then
    option_map (@concat Z)
               (Ethers.sequence (map (fun p => pack1 (fst p) (snd p)) (combine ts vs)))
  else None.

Definition solidityKeccak256 (ts : list PackedType) (vs : list Js.jsstring)
  : option Buf.bytes :=
  option_map Keccak.keccak256 (solidityPack ts vs).

Definition messagePrefix : Js.jsstring := [0x19] ++ Js.lit "Ethereum Signed Message:" ++ [10].

(** [hashMessage(bytes)]: the EIP-191 personal-message digest. *)
Definition hashMessage (message : Buf.bytes) : Buf.bytes :=
  Keccak.keccak256
    (Utf8.encode messagePrefix
       ++ Utf8.encode (Json.int_to_string (Z.of_nat (length message)))
       ++ message).

(** An [ethers.Wallet] as signer: its address string, and the signature
    string its key gives for a 32-byte digest. *)
Record Signer := {
  address : Js.jsstring;
  signDigest : Buf.bytes -> Js.jsstring
}.

(** [signer.signMessage(bytes)]. *)
Definition signMessage (signer : Signer) (message : Buf.bytes) : Js.jsstring :=
  signDigest signer (hashMessage message).

(** The digest [signMessage] comes to sign for a 32-byte hash: the hash
    behind the prefix and its length in decimal. *)
Definition signed_digest (hash : Buf.bytes) : Buf.bytes :=
  Keccak.keccak256
    ([0x19] ++ Js.lit "Ethereum Signed Message:" ++ [10] ++ Js.lit "32" ++ hash).

End EthersSign.

(* ================================================================== *)
(** ** wallet/safe-deployer.ts, the signing functions *)

Module SafeDeployer.
Import Ethers EthersSign Wallet.

Record SafeTransaction := {
  from : Js.jsstring;
  to : Js.jsstring;
  proxyWallet : Js.jsstring;
  data : Js.jsstring;
  signature : Js.jsstring
}.

(** [createSafeDeploymentSignature]; [None]: the promise rejects. *)
Definition createSafeDeploymentSignature (signer : Signer)
           (proxyFactory proxyWallet : Js.jsstring) : option Js.jsstring :=
  let? messageHash :=
    solidityKeccak256 [PkString; PkAddress; PkAddress; PkAddress]
                      [Js.lit "SAFE-CREATE"; address signer; proxyFactory; proxyWallet] in
  let signature := signMessage signer messageHash in
  Some signature.

(** [buildSafeTransaction]. *)
Definition buildSafeTransaction (signer : Signer) (safeAddress to data : Js.jsstring)
  : option SafeTransaction :=
  let? messageHash :=
    solidityKeccak256 [PkString; PkAddress; PkAddress; PkBytes]
                      [Js.lit "SAFE-TX"; safeAddress; to; data] in
  let signature := signMessage signer messageHash in
  Some {| from := address signer;
          to := to;
          proxyWallet := safeAddress;
          data := data;
          signature := signature |}.

(** The [contracts] argument of [createApprovalSignatures].  A field is
    [None] when it is absent or the empty string, the two cases the
    truthiness tests treat alike.  [ctfExchange], which only the ABI coder
    reads, is an address by value as in [Ethers]. *)
Record Contracts := {
  usdc : option Js.jsstring;
  ctfExchange : option Z;
  negRiskCtfExchange : option Js.jsstring;
  negRiskAdapter : option Js.jsstring;
  conditionalTokens : option Js.jsstring
}.

Definition POLYGON_CONTRACTS : Contracts :=
  {| usdc := Some (Js.lit "0x2791Bca1f2de4661ED88A30C99A7a9449Aa84174");
     ctfExchange := Some 0x4bFb41d5B3570DeFd03C39a9A4D8dE6Bd8B8982E;
     negRiskCtfExchange := Some (Js.lit "0xC5d563A36AE78145C45a50134d48A1215220f80a");
     negRiskAdapter := Some (Js.lit "0xd91E80cF2E7be2e162c6513ceD06f1dD0dA35296");
     conditionalTokens := Some (Js.lit "0x4D97DCd97eC945f40cF65F87097ACe5EA0476045") |}.

Definition MaxUint256 : Z := 2 ^ 256 - 1.

Definition approve_fragment : Fragment :=
  {| fname := "approve"; inputs := [TAddress; TUint256] |}.

(** The hex string of a byte sequence, as [encodeFunctionData] returns it. *)
Definition hexlify (b : Buf.bytes) : Js.jsstring := Js.lit "0x" ++ Js.to_hex b.

Record ApprovalSignatures := {
  usdcApproval : option Js.jsstring;
  ctfApproval : option Js.jsstring;
  conditionalTokensApproval : option Js.jsstring
}.

(** [createApprovalSignatures]; [None]: the promise rejects. *)
Definition createApprovalSignatures (signer : Signer) (safeAddress : Js.jsstring)
           (contracts : Contracts) : option ApprovalSignatures :=
  let signatures :=
    {| usdcApproval := None; ctfApproval := None; conditionalTokensApproval := None |} in
  match usdc contracts, ctfExchange contracts with
  | Some usdc, Some ctfExchange =>
      let? approveData :=
        option_map hexlify
          (encodeFunctionData approve_fragment [AAddress ctfExchange; ANumber MaxUint256]) in
      let? messageHash :=
        solidityKeccak256 [PkString; PkAddress; PkAddress; PkBytes]
                          [Js.lit "SAFE-TX"; safeAddress; usdc; approveData] in
      Some {| usdcApproval := Some (signMessage signer messageHash);
              ctfApproval := ctfApproval signatures;
              conditionalTokensApproval := conditionalTokensApproval signatures |}
  | _, _ => Some signatures
  end.

(** The call data of [approve(spender, 2^256 - 1)] laid out by hand:
    selector, the spender as a word, 32 bytes of ones. *)
Definition approve_data (spender : Z) : Buf.bytes :=
  [0x09; 0x5e; 0xa7; 0xb3] ++ SafeSpec.word spender ++ repeat 0xff 32.

End SafeDeployer.

(* ================================================================== *)
(** ** wallet/key-generator.ts, wallet generation and recovery *)

Module KeyGenerator.
Import KeyVault.

(** What the code reads of an [ethers.Wallet]. *)
Record EthWallet := { privateKey : Js.jsstring; address : Js.jsstring }.

Record GeneratedWallet := {
  generated_address : Js.jsstring;
  encryptedKey : EncryptedData
}.

Record WalletFromKey := { wallet : EthWallet; recovered_address : Js.jsstring }.

(** [generateWallet]; [created] is what [ethers.Wallet.createRandom()]
    returns and [random_iv] what [encrypt] draws. *)
Definition generateWallet (keyVault : KeyVault.t) (created : EthWallet)
           (random_iv : Buf.bytes) : Result GeneratedWallet :=
  let wallet := created in
  do encryptedKey <- encrypt keyVault random_iv (privateKey wallet);
  Ok {| generated_address := address wallet; encryptedKey := encryptedKey |}.

(** [recoverWallet]; [new_Wallet] is the constructor [new ethers.Wallet(key)],
    which throws on a string that is not a private key. *)
Definition recoverWallet (new_Wallet : Js.jsstring -> Result EthWallet)
           (keyVault : KeyVault.t) (encryptedKey : EncryptedData) : Result WalletFromKey :=
  do privateKey <- decrypt keyVault encryptedKey;
  do wallet <- new_Wallet privateKey;
  Ok {| wallet := wallet; recovered_address := address wallet |}.

End KeyGenerator.

(* ================================================================== *)
(** ** relayer/client.ts, the client around [relay] *)

Module RelayerClient.
Import Json Relayer SafeDeployer.

Record RelayerConfig := { endpoint : Js.jsstring; timeout : option Z }.

Record Client := { client_endpoint : Js.jsstring; client_timeout : Z }.

(** [this.timeout = config.timeout || 30000]. *)
Definition constructor (config : RelayerConfig) : Client :=
  {| client_endpoint := endpoint config;
     client_timeout :=
       match timeout config with
       | Some t => if t =? 0 then 30000 else t
       | None => 30000
       end |}.

(** What [relay] hands to [fetch]. *)
Record Request := {
  url : Js.jsstring;
  http_method : Js.jsstring;
  headers : list (Js.jsstring * Js.jsstring);
  body : Js.jsstring;
  abort_after : Z
}.

Definition transaction_json (transaction : SafeTransaction) : JsValue :=
  JObj [ (Js.lit "from", JStr (from transaction));
         (Js.lit "to", JStr (to transaction));
         (Js.lit "proxyWallet", JStr (proxyWallet transaction));
         (Js.lit "data", JStr (data transaction));
         (Js.lit "signature", JStr (signature transaction)) ].

Definition relay_request (client : Client) (transaction : SafeTransaction) : Request :=
  {| url := client_endpoint client ++ Js.lit "/relay";
     http_method := Js.lit "POST";
     headers := [(Js.lit "Content-Type", Js.lit "application/json")];
     body := template (stringify (transaction_json transaction));
     abort_after := client_timeout client |}.

(** [relay] with the request it makes; [fetch] is the network. *)
Definition relay_with (fetch : Request -> Completion Response) (client : Client)
           (transaction : SafeTransaction) : Completion RelayerResponse :=
  relay (fetch (relay_request client transaction)).

Record DeploySafeParams := {
  deploy_ownerAddress : Js.jsstring;
  deploy_proxyWallet : Js.jsstring;
  deploy_proxyFactory : Js.jsstring;
  deploy_signature : Js.jsstring
}.

Definition deploySafe (fetch : Request -> Completion Response) (client : Client)
           (params : DeploySafeParams) : Completion RelayerResponse :=
  let transaction :=
    {| from := deploy_ownerAddress params;
       to := deploy_proxyFactory params;
       proxyWallet := deploy_proxyWallet params;
       data := Js.lit "0x";
       signature := deploy_signature params |} in
  relay_with fetch client transaction.

Record ExecuteParams := {
  exec_safeAddress : Js.jsstring;
  exec_to : Js.jsstring;
  exec_data : Js.jsstring;
  exec_ownerAddress : Js.jsstring;
  exec_signature : Js.jsstring
}.

Definition executeTransaction (fetch : Request -> Completion Response) (client : Client)
           (params : ExecuteParams) : Completion RelayerResponse :=
  let transaction :=
    {| from := exec_ownerAddress params;
       to := exec_to params;
       proxyWallet := exec_safeAddress params;
       data := exec_data params;
       signature := exec_signature params |} in
  relay_with fetch client transaction.

Definition POLYMARKET_RELAYER : Js.jsstring := Js.lit "https://relayer.polymarket.com".

Definition createPolymarketRelayer : Client :=
  constructor {| endpoint := POLYMARKET_RELAYER; timeout := None |}.

End RelayerClient.

(* ================================================================== *)
(** ** Further concrete inputs *)

Module MoreSamples.
Import Json Hmac HmacHeaders.

Definition sample_config : HmacConfig :=
  {| apiKey := Js.lit "qnt_AQIDBAUGBwgJCgsMDQ4PEBESExQVFhcY";
     apiSecret := Samples.sample_secret;
     validityWindow := None |}.

Definition sample_random32 : Buf.bytes := map Z.of_nat (seq 7 32).

Definition sample_random24 : Buf.bytes := map Z.of_nat (seq 1 24).


(** A stand-in signer: any function of the digest will do for the
    properties below. *)
Definition sample_signer : EthersSign.Signer :=
  {| EthersSign.address := Js.lit "0x5aAeb6053F3E94C9b9A09f33669435E7Ef1BeAed";
     EthersSign.signDigest := fun d => SafeDeployer.hexlify (d ++ d ++ [27]) |}.

Definition sample_safe : Js.jsstring := Js.lit "0x1Ee4A44990A7047fCc1f2f068c865818F6B91571".

Definition sample_token : Js.jsstring := Js.lit "0x2791Bca1f2de4661ED88A30C99A7a9449Aa84174".

Definition sample_calldata : Js.jsstring := Js.lit "0x095ea7b3".

Definition sample_transaction : SafeDeployer.SafeTransaction :=
  match SafeDeployer.buildSafeTransaction sample_signer sample_safe sample_token
                                          sample_calldata with
  | Some tx => tx
  | None =>
      {| SafeDeployer.from := []; SafeDeployer.to := []; SafeDeployer.proxyWallet := [];
         SafeDeployer.data := []; SafeDeployer.signature := [] |}
  end.

Definition contracts_without_exchange : SafeDeployer.Contracts :=
  {| SafeDeployer.usdc := Some sample_token;
     SafeDeployer.ctfExchange := None;
     SafeDeployer.negRiskCtfExchange := None;
     SafeDeployer.negRiskAdapter := None;
     SafeDeployer.conditionalTokens := None |}.

Definition sample_wallet : KeyGenerator.EthWallet :=
  {| KeyGenerator.privateKey := Js.lit "0x" ++ Js.to_hex sample_random32;
     KeyGenerator.address := Js.lit "0x5aAeb6053F3E94C9b9A09f33669435E7Ef1BeAed" |}.

(** A stand-in for the wallet constructor: it knows one key. *)
Definition sample_new_Wallet (key : Js.jsstring) : KeyVault.Result KeyGenerator.EthWallet :=
  if Json.str_eqb key (KeyGenerator.privateKey sample_wallet) then KeyVault.Ok sample_wallet
  else KeyVault.Err (Js.lit "invalid private key").

(** A network that answers every request with HTTP 502. *)
Definition sample_fetch (request : RelayerClient.Request)
  : Relayer.Completion Relayer.Response :=
  Relayer.Return {| Relayer.status := 502;
                    Relayer.text := Relayer.Return (Js.lit "Bad Gateway");
                    Relayer.json :=
                      Relayer.Throw (Relayer.ThrownError (Js.lit "Unexpected token B")) |}.

End MoreSamples.

(* ================================================================== *)
(** * Properties *)

(** ** Test vectors for the primitives *)

Example keccak256_empty :
  Js.to_hex (Keccak.keccak256 []) =
  Js.lit "c5d2460186f7233c927e7db2dcc703c0e500b653ca82273b7bfad8045d85a470".
Proof. vm_compute. reflexivity. Qed.

Example sha3_256_long :
  Js.to_hex (Keccak.sponge256 0x06 (repeat 0xa3 200)) =
  Js.lit "79f38adec5c20307a98ef76e8324afbfd46cfd81b22e3973c65fa1bd9de31787".
Proof. vm_compute. reflexivity. Qed.

Example setup_sighash_hex :
  Js.to_hex (Ethers.sighash Wallet.setup_fragment) = Js.lit "b63e800d".
Proof. vm_compute. reflexivity. Qed.

Example checksum_factory :
  Ethers.checksum (Buf.be 20 Wallet.POLYGON_safeProxyFactory) =
  Js.lit "0xaacFeEa03eb1561C4e67d661e40682Bd20E3541b".
Proof. vm_compute. reflexivity. Qed.

Example sha256_abc :
  Js.to_hex (Sha256.sha256 (Js.lit "abc")) =
  Js.lit "ba7816bf8f01cfea414140de5dae2223b00361a396177a9cb410ff61f20015ad".
Proof. vm_compute. reflexivity. Qed.

Example hmac_sha256_fox :
  Js.to_hex (Sha256.hmac (Js.lit "key") (Js.lit "The quick brown fox jumps over the lazy dog")) =
  Js.lit "f7bc83f430538424b13298e6aa6fb143ef4d59a14946175997479dbc2d1a3cd8".
Proof. vm_compute. reflexivity. Qed.

Example base64_foobar :
  Base64.encode (Js.lit "fooba") = Js.lit "Zm9vYmE=" /\
  Base64.decode (Js.lit "Zm9v YmE=") = Js.lit "fooba" /\
  Base64.encode_url [0xfb; 0xff] = Js.lit "-_8".
Proof. vm_compute. repeat split. Qed.

Example utf8_samples :
  Utf8.encode [0x41; 0xE9; 0x20AC; 0xD83D; 0xDE00] =
    [0x41; 0xC3; 0xA9; 0xE2; 0x82; 0xAC; 0xF0; 0x9F; 0x98; 0x80] /\
  Utf8.decode [0x41; 0xC3; 0xA9; 0xE2; 0x82; 0xAC; 0xF0; 0x9F; 0x98; 0x80] =
    [0x41; 0xE9; 0x20AC; 0xD83D; 0xDE00].
Proof. vm_compute. split; reflexivity. Qed.

Example aes256_fips197 :
  Js.to_hex (Aes.encrypt_block (map Z.of_nat (seq 0 32))
                               (Js.from_hex (Js.lit "00112233445566778899aabbccddeeff"))) =
  Js.lit "8ea2b7ca516745bfeafc49904b496089".
Proof. vm_compute. reflexivity. Qed.

Example gcm_nist_case14 :
  Gcm.encrypt (Buf.zeros 32) (Buf.zeros 12) (Buf.zeros 16) =
  (Js.from_hex (Js.lit "cea7403d4d606b6e074ec5d3baf39d18"),
   Js.from_hex (Js.lit "d0d1c8a799996bf0265b98b5d48ab919")).
Proof. vm_compute. reflexivity. Qed.

Example keyvault_encrypt_hello :
  KeyVault.encrypt {| KeyVault.masterKey := map Z.of_nat (seq 0 32) |}
                   (map Z.of_nat (seq 100 16)) (Js.lit "hello") =
  KeyVault.Ok {| KeyVault.encrypted := Js.lit "sNYvPYs=";
                 KeyVault.iv := Js.lit "ZGVmZ2hpamtsbW5vcHFycw==";
                 KeyVault.authTag := Js.lit "4udYwD8OpnF6MiIiZyLxDw==" |}.
Proof. vm_compute. reflexivity. Qed.

Example keyvault_encrypt_long :
  KeyVault.encrypt {| KeyVault.masterKey := map Z.of_nat (seq 0 32) |}
                   (map Z.of_nat (seq 100 16))
                   (Js.lit "private key " ++ [0x20AC; 0x20; 0xD83D; 0xDE00]
                      ++ Js.lit " 0123456789abcdef0123456789") =
  KeyVault.Ok {| KeyVault.encrypted :=
                   Js.lit "qMEqJ4VgQvjZnNSppVVARaruwEC839E59rQhWK7PPqkZouqpBvvS8zI7ejMgSfU=";
                 KeyVault.iv := Js.lit "ZGVmZ2hpamtsbW5vcHFycw==";
                 KeyVault.authTag := Js.lit "fGKMM/Nmd44qJ9L/yDvtwQ==" |}.
Proof. vm_compute. reflexivity. Qed.

(* ================================================================== *)
(** ** Lists, buffers, encodings *)

Lemma buf_eqb_refl (a : Buf.bytes) : Buf.eqb a a = true.
Proof.
  induction a as [|x a IH]; simpl; [reflexivity|].
  now rewrite Z.eqb_refl, IH.
Qed.


(** Induction in steps of three, as the base64 coder walks its input. *)
Lemma list_ind3 {A} (P : list A -> Prop) :
  P [] -> (forall a, P [a]) -> (forall a b, P [a; b]) ->
  (forall a b c r, P r -> P (a :: b :: c :: r)) ->
  forall l, P l.
Proof.
  intros H0 H1 H2 H3.
  fix self 1.
  intros [|a [|b [|c r]]]; [exact H0 | apply H1 | apply H2 | apply H3, self].
Qed.

(** Induction in steps of four, for the decoder. *)
Lemma list_ind4 {A} (P : list A -> Prop) :
  P [] -> (forall a, P [a]) -> (forall a b, P [a; b]) -> (forall a b c, P [a; b; c]) ->
  (forall a b c d r, P r -> P (a :: b :: c :: d :: r)) ->
  forall l, P l.
Proof.
  intros H0 H1 H2 H3 H4.
  fix self 1.
  intros [|a [|b [|c [|d r]]]]; [exact H0 | apply H1 | apply H2 | apply H3 | apply H4, self].
Qed.

(* ================================================================== *)
(** ** HMAC request signing (crypto/hmac.ts) *)

Section HmacProperties.
Import Hmac Json.

Variables (e : Envelope) (s : Js.jsstring).

(** C4: a signature made by [createHmacSignature] is accepted by
    [verifyHmacSignature] for the same envelope and secret whenever the
    clock read at verification is within the validity window of the
    envelope's timestamp. *)
Theorem verify_accepts_fresh_signature (now window : Z) :
  Z.abs (now - timestamp e) <= window * 1000 ->
  verifyHmacSignature now (createHmacSignature {| env := e; secret := s |}) e s window
  = {| valid := true; reason := None |}.
Proof.
  intros Hwin. unfold verifyHmacSignature.
  destruct (Z.gtb_spec (Z.abs (now - timestamp e)) (window * 1000)); [lia|].
  now rewrite Nat.eqb_refl, buf_eqb_refl.
Qed.

(** C5: outside the window the correctly signed envelope is rejected, and
    the reason given is the expiry message. *)
Theorem verify_rejects_expired_signature (now window : Z) :
  Z.abs (now - timestamp e) > window * 1000 ->
  verifyHmacSignature now (createHmacSignature {| env := e; secret := s |}) e s window
  = {| valid := false;
       reason := Some (expired_reason (Z.abs (now - timestamp e)) (window * 1000)) |}.
Proof.
  intros Hexp. unfold verifyHmacSignature.
  destruct (Z.gtb_spec (Z.abs (now - timestamp e)) (window * 1000)); [reflexivity|lia].
Qed.

(** Every falsy body is signed as the empty body string. *)
Lemma falsy_body_signed_as_absent :
  truthy (body e) = false ->
  createHmacSignature {| env := e; secret := s |}
  = createHmacSignature
      {| env := {| method := method e; path := path e; body := JUndefined;
                   timestamp := timestamp e |};
         secret := s |}.
Proof.
  intros Hb. unfold createHmacSignature. simpl. now rewrite Hb.
Qed.

End HmacProperties.

Section HmacExamples.
Import Hmac Json.

Import Samples.

Example sample_signature :
  createHmacSignature {| env := sample_envelope; secret := sample_secret |}
  = Js.lit "KNIh9sXBCUt6TsprLYE91uYjQuNNCBJjf28iD8L3dMc=".
Proof. vm_compute. reflexivity. Qed.

Lemma verify_accepts_fresh_signature_witness :
  Z.abs (1700000012345 - timestamp sample_envelope) <= 30 * 1000 /\
  verifyHmacSignature 1700000012345
    (createHmacSignature {| env := sample_envelope; secret := sample_secret |})
    sample_envelope sample_secret 30
  = {| valid := true; reason := None |}.
Proof.
  split; [vm_compute; discriminate|].
  apply (verify_accepts_fresh_signature sample_envelope sample_secret 1700000012345 30).
  vm_compute; discriminate.
Defined.

Lemma verify_rejects_expired_signature_witness :
  Z.abs (1700000030001 - timestamp sample_envelope) > 30 * 1000 /\
  verifyHmacSignature 1700000030001
    (createHmacSignature {| env := sample_envelope; secret := sample_secret |})
    sample_envelope sample_secret 30
  = {| valid := false;
       reason := Some (Js.lit
         "Request timestamp expired. Time difference: 30001ms, max allowed: 30000ms") |}.
Proof.
  split; [vm_compute; reflexivity|].
  apply (verify_rejects_expired_signature sample_envelope sample_secret 1700000030001 30).
  vm_compute; reflexivity.
Defined.

End HmacExamples.

Section HmacBodies.
Import Hmac Json.

Variables (m : Method) (p : Js.jsstring) (ts : Z) (s : Js.jsstring).
(** C10: with the body absent, null, 0, false or the empty string the
    signature is the same one, the HMAC of timestamp, method and path
    followed by nothing. *)
Theorem falsy_bodies_share_signature :
  let sign b :=
    createHmacSignature
      {| env := {| method := m; path := p; body := b; timestamp := ts |}; secret := s |} in
  let bare :=
    Base64.encode
      (Sha256.hmac (Utf8.encode s)
                   (Utf8.encode (int_to_string ts ++ method_string m ++ p ++ []))) in
  sign JUndefined = bare /\
  sign JNull = bare /\
  sign (JNum (NInt 0)) = bare /\
  sign (JBool false) = bare /\
  sign (JStr []) = bare.
Proof.
  cbv zeta. unfold createHmacSignature. cbn [env body secret timestamp method path truthy Z.eqb negb].
  repeat split.
Qed.
End HmacBodies.

Example falsy_bodies_collide :
  Hmac.createHmacSignature
    {| Hmac.env := {| Hmac.method := Hmac.POST; Hmac.path := Js.lit "/v1/flag";
                      Hmac.body := Json.JBool false; Hmac.timestamp := 1700000000000 |};
       Hmac.secret := Samples.sample_secret |}
  = Hmac.createHmacSignature
      {| Hmac.env := {| Hmac.method := Hmac.POST; Hmac.path := Js.lit "/v1/flag";
                        Hmac.body := Json.JNum (Json.NInt 0);
                        Hmac.timestamp := 1700000000000 |};
         Hmac.secret := Samples.sample_secret |}.
Proof. vm_compute. reflexivity. Qed.

(* ================================================================== *)
(** ** API keys (crypto/hmac.ts) *)

Lemma sextets_of_length (bs : Buf.bytes) :
  length (Base64.sextets_of bs) = ((4 * length bs + 2) / 3)%nat.
Proof.
  induction bs as [| a | a b | a b c r IH] using list_ind3.
  1-3: reflexivity.
  change (Base64.sextets_of (a :: b :: c :: r))
    with ([a / 4; a mod 4 * 16 + b / 16; b mod 16 * 4 + c / 64; c mod 64]
            ++ Base64.sextets_of r).
  rewrite length_app, IH. cbn [length].
  replace (4 * S (S (S (length r))) + 2)%nat with ((4 * length r + 2) + 4 * 3)%nat by lia.
  rewrite Nat.div_add by discriminate. lia.
Qed.

Section ApiKeys.
Import Hmac.
(** C9: whatever 24 bytes are drawn, the key made for prefix "qnt" starts
    with "qnt_", its [keyPrefix] is its first 12 characters and has 12
    of them, and its [keyHash] is the SHA-256 hex digest of the key, the
    value [hashApiKey] gives for it. *)
Theorem generateApiKey_qnt (random24 : Buf.bytes) :
  length random24 = 24%nat ->
  let k := generateApiKey (Js.lit "qnt") random24 in
  Js.starts_with (Js.lit "qnt_") (key k) = true /\
  keyPrefix k = firstn 12 (key k) /\
  length (keyPrefix k) = 12%nat /\
  keyHash k = Js.to_hex (Sha256.sha256 (Utf8.encode (key k))) /\
  hashApiKey (key k) = keyHash k.
Proof.
  intros Hlen k. split; [reflexivity|]. split; [reflexivity|].
  split; [|split; reflexivity].
  unfold k, generateApiKey, keyPrefix, Js.substring0.
  rewrite length_firstn, !length_app. unfold Base64.encode_url.
  rewrite length_map, sextets_of_length, Hlen. reflexivity.
Qed.

Lemma generateApiKey_qnt_witness :
  let k := generateApiKey default_prefix (map Z.of_nat (seq 1 24)) in
  key k = Js.lit "qnt_AQIDBAUGBwgJCgsMDQ4PEBESExQVFhcY" /\
  keyPrefix k = Js.lit "qnt_AQIDBAUG" /\
  hashApiKey (key k) = keyHash k.
Proof.
  pose proof (generateApiKey_qnt (map Z.of_nat (seq 1 24)) eq_refl) as H.
  cbv zeta in *. destruct H as (_ & _ & _ & _ & Hh).
  split; [vm_compute; reflexivity | split; [vm_compute; reflexivity | exact Hh]].
Defined.
End ApiKeys.

(* ================================================================== *)
(** ** The relayer client (relayer/client.ts) *)

Section RelayProperties.
Import Relayer Json.

Lemma relay_returns (fetched : Completion Response) :
  exists r, relay fetched = Return r.
Proof.
  unfold relay, try_catch, bind.
  destruct fetched as [resp | e]; [|eauto].
  destruct (negb (ok resp)).
  - destruct (text resp); eauto.
  - destruct (json resp) as [result | e]; [|eauto].
    destruct (get result "txHash") as [a | e]; [|eauto].
    destruct (truthy a); [eauto|].
    destruct (get result "transactionHash"); eauto.
Qed.

(** C6: [relay] always returns a result.  A response that is not 2xx gives
    a failure whose error reads "Relayer error: <status> - <body>"; a
    rejected fetch (network failure, abort at the timeout) gives a failure
    carrying the error's message; a 2xx response whose JSON object has a
    hash under [txHash], or else under [transactionHash], gives a success
    carrying that hash. *)
Theorem relay_reports_every_outcome :
  (forall fetched, exists r, relay fetched = Return r) /\
  (forall resp body,
      ok resp = false -> text resp = Return body ->
      relay (Return resp)
      = Return {| success := false; txHash := None;
                  error := Some (Js.lit "Relayer error: " ++ int_to_string (status resp)
                                   ++ Js.lit " - " ++ body) |}) /\
  (forall message,
      relay (Throw (ThrownError message))
      = Return {| success := false; txHash := None; error := Some message |}) /\
  (forall resp props h,
      ok resp = true -> json resp = Return (JObj props) ->
      truthy h = true ->
      lookup (Js.lit "txHash") props = h
      \/ (truthy (lookup (Js.lit "txHash") props) = false
          /\ lookup (Js.lit "transactionHash") props = h) ->
      relay (Return resp)
      = Return {| success := true; txHash := Some h; error := None |}).
Proof.
  split; [exact relay_returns|]. split; [|split].
  - intros resp body Hok Htext. unfold relay, try_catch, bind.
    now rewrite Hok, Htext.
  - reflexivity.
  - intros resp props h Hok Hjson Hh Hcase. unfold relay, try_catch, bind.
    rewrite Hok, Hjson. cbn [negb get].
    destruct Hcase as [H1 | [H1 H2]].
    + rewrite H1, Hh. reflexivity.
    + rewrite H1, H2. reflexivity.
Qed.

(** C7, as the code has it: a result with [success = false] has an error
    string and no [txHash]; a result with [success = true] has no error and
    a [txHash] property holding the body's [txHash || transactionHash],
    which is a hash only if the body supplies one. *)
Theorem relay_result_shape (fetched : Completion Response) :
  exists r, relay fetched = Return r /\
    if success r then
      error r = None /\
      exists resp result a b,
        fetched = Return resp /\ ok resp = true /\ json resp = Return result /\
        get result "txHash" = Return a /\
        get result "transactionHash" = Return b /\
        txHash r = Some (or_else a b)
    else
      txHash r = None /\ exists message, error r = Some message.
Proof.
  unfold relay, try_catch, bind.
  destruct fetched as [resp | e]; [|eexists; split; [reflexivity|]; cbn; eauto].
  destruct (ok resp) eqn:Hok; cbn [negb].
  2: { destruct (text resp) as [body | e]; eexists; (split; [reflexivity|]); cbn; eauto. }
  destruct (json resp) as [result | e] eqn:Hjson;
    [|eexists; split; [reflexivity|]; cbn; eauto].
  assert (Hboth : (exists a b, get result "txHash" = Return a
                               /\ get result "transactionHash" = Return b)
                  \/ (exists e, get result "txHash" = Throw e)).
  { destruct result; cbn [get]; eauto. }
  destruct Hboth as [(a & b & Ha & Hb) | (e & He)].
  - rewrite Ha, Hb.
    exists {| success := true; txHash := Some (or_else a b); error := None |}. split.
    + unfold or_else. destruct (truthy a); reflexivity.
    + cbn. split; [reflexivity|]. exists resp, result, a, b. auto 10.
  - rewrite He. eexists; split; [reflexivity|]; cbn; eauto.
Qed.

End RelayProperties.

Section RelayExamples.
Import Relayer Json Samples.

(** C7 as stated fails: a 2xx response with the body [{}] is reported as
    a success whose [txHash] is [undefined]. *)
Lemma relay_success_without_hash :
  exists r,
    relay (Return response_empty_object) = Return r /\
    success r = true /\ txHash r = Some JUndefined /\
    ~ (exists h, txHash r = Some h /\ h <> JUndefined).
Proof.
  eexists. split; [vm_compute; reflexivity|]. cbn.
  split; [reflexivity|]. split; [reflexivity|].
  intros (h & Hh & Hne). apply Hne. now inversion Hh.
Qed.

Lemma relay_reports_every_outcome_witness :
  relay (Return response_500)
  = Return {| success := false; txHash := None;
              error := Some (Js.lit "Relayer error: 500 - upstream down") |}
  /\ relay (Return response_with_hash)
     = Return {| success := true; txHash := Some (JStr (Js.lit "0xabc123")); error := None |}.
Proof.
  destruct relay_reports_every_outcome as (_ & Hbad & _ & Hgood).
  split.
  - apply (Hbad response_500 (Js.lit "upstream down")); reflexivity.
  - apply (Hgood response_with_hash
                 [(Js.lit "transactionHash", JStr (Js.lit "0xabc123"))]
                 (JStr (Js.lit "0xabc123"))); try reflexivity.
    right. split; reflexivity.
Defined.

Example relay_unknown_error :
  relay (Throw ThrownOther)
  = Return {| success := false; txHash := None;
              error := Some (Js.lit "Unknown relayer error") |}.
Proof. reflexivity. Qed.

Example relay_null_body :
  relay (Return {| status := 200; text := Return (Js.lit "null"); json := Return JNull |})
  = Return {| success := false; txHash := None;
              error := Some (Js.lit "Cannot read properties of null (reading 'txHash')") |}.
Proof. vm_compute. reflexivity. Qed.

End RelayExamples.

(* ================================================================== *)
(** ** KeyVault construction (crypto/key-vault.ts) *)


Section KeyVaultConstruction.
Import KeyVault.


(** Whatever the argument is, a constructed vault holds a 32-byte key. *)
Lemma constructor_key_length (config : MasterKeyArg) (v : t) :
  constructor config = Ok v -> length (masterKey v) = 32%nat.
Proof.
  unfold constructor, bind.
  destruct (match config with
            | KeyBuffer b => Ok b
            | KeyString s => parseKey s
            | KeyOther => Err (Js.lit "masterKey must be a Buffer or string")
            | KeyAbsent => Err (Js.lit "masterKey is required")
            end) as [k | msg]; [|discriminate].
  destruct (Nat.eqb (length k) 32) eqn:Hk; cbn; [|discriminate].
  intros H. injection H as <-. now apply Nat.eqb_eq.
Qed.

End KeyVaultConstruction.

Example constructor_accepts_hex :
  KeyVault.constructor
    (KeyVault.KeyString
       (Js.lit "000102030405060708090a0b0c0d0e0f101112131415161718191A1B1C1D1E1F"))
  = KeyVault.Ok {| KeyVault.masterKey := map Z.of_nat (seq 0 32) |}.
Proof. vm_compute. reflexivity. Qed.

Example constructor_accepts_base64 :
  KeyVault.constructor
    (KeyVault.KeyString (Js.lit "AAECAwQFBgcICQoLDA0ODxAREhMUFRYXGBkaGxwdHh8="))
  = KeyVault.Ok {| KeyVault.masterKey := map Z.of_nat (seq 0 32) |}.
Proof. vm_compute. reflexivity. Qed.

Example constructor_rejects_short :
  KeyVault.constructor (KeyVault.KeyString (Js.lit "deadbeef"))
  = KeyVault.Err
      (Js.lit "Master key must be 32 bytes as hex (64 chars) or base64 (44 chars)").
Proof. vm_compute. reflexivity. Qed.

(* ================================================================== *)
(** ** Safe address derivation (wallet/) *)

Lemma be_length (n : nat) (z : Z) : length (Buf.be n z) = n.
Proof.
  revert z; induction n as [|n IH]; intros z; cbn [Buf.be]; [reflexivity|].
  rewrite length_app, IH. cbn [length]. lia.
Qed.

Lemma le_length (n : nat) (z : Z) : length (Buf.le n z) = n.
Proof.
  revert z; induction n as [|n IH]; intros z; cbn [Buf.le length]; [reflexivity|].
  now rewrite IH.
Qed.

Lemma zeros_snoc (k : nat) : Buf.zeros k ++ [0] = Buf.zeros (S k).
Proof.
  unfold Buf.zeros. induction k as [|k IH]; [reflexivity|].
  cbn [repeat app]. now rewrite IH.
Qed.

(** A number below 256^n written on more than n bytes is zero-filled on
    the left. *)
Lemma be_zero_fill (k n : nat) (z : Z) :
  0 <= z < 256 ^ Z.of_nat n -> Buf.be (k + n) z = Buf.zeros k ++ Buf.be n z.
Proof.
  revert z. induction n as [|n IH]; intros z Hz.
  - assert (z = 0) by (cbn in Hz; lia). subst z.
    rewrite Nat.add_0_r, app_nil_r. clear Hz.
    induction k as [|k IHk]; [reflexivity|].
    cbn [Buf.be]. rewrite Zdiv_0_l, IHk. apply zeros_snoc.
  - rewrite Nat.add_succ_r. cbn [Buf.be]. rewrite IH, app_assoc; [reflexivity|].
    rewrite Nat2Z.inj_succ, Z.pow_succ_r in Hz by lia.
    split; [apply Z.div_pos; lia | apply Z.div_lt_upper_bound; lia].
Qed.

Section KeccakShape.
Import Keccak.

Lemma round_length (st : list Z) (rc : Z) : length (round st rc) = 25%nat.
Proof.
  unfold round, iota, chi.
  destruct (map _ coords) as [|a r] eqn:E;
    apply (f_equal (@length Z)) in E; rewrite length_map in E; cbn in E; [discriminate|].
  cbn [length] in *. symmetry. exact E.
Qed.

Lemma keccak_f_length (st : list Z) : length (keccak_f st) = 25%nat.
Proof. unfold keccak_f, RC. cbn [fold_left]. apply round_length. Qed.

Lemma absorb_all_length (blocks : list Buf.bytes) (st : list Z) :
  length st = 25%nat -> length (fold_left absorb blocks st) = 25%nat.
Proof.
  revert st; induction blocks as [|blk blocks IH]; intros st Hst; [exact Hst|].
  cbn [fold_left]. apply IH. apply keccak_f_length.
Qed.

Lemma lanes_length (st : list Z) : length (flat_map (Buf.le 8) st) = (8 * length st)%nat.
Proof.
  induction st as [|a st IH]; [reflexivity|].
  cbn [flat_map]. rewrite length_app, le_length, IH. cbn [length]. lia.
Qed.

Lemma keccak256_length (msg : Buf.bytes) : length (keccak256 msg) = 32%nat.
Proof.
  unfold keccak256, sponge256. rewrite length_firstn, lanes_length, absorb_all_length.
  - reflexivity.
  - reflexivity.
Qed.

End KeccakShape.

Section SafeAddress.
Import Ethers Wallet Samples.

Lemma getAddress_valid (a : Z) :
  valid_address a = true -> getAddress a = Some (Buf.be 20 a).
Proof. intros H. unfold getAddress. now rewrite H. Qed.

Lemma valid_address_range (a : Z) : valid_address a = true -> 0 <= a < 256 ^ 20.
Proof.
  unfold valid_address. intros H. apply andb_prop in H as [H1 H2].
  apply Z.leb_le in H1. apply Z.ltb_lt in H2. change (256 ^ 20) with (2 ^ 160). lia.
Qed.

Local Abbreviation setup_args owner :=
  [ AArray [AAddress owner]; ANumber 1; AAddress AddressZero; AData [];
    AAddress AddressZero; AAddress AddressZero; ANumber 0; AAddress AddressZero ].

(** The coder's output for the [setup] arguments is the hand-written layout. *)
Lemma encode_setup_args (owner : Z) :
  valid_address owner = true ->
  encode (inputs setup_fragment) (setup_args owner)
  = Some (concat (map SafeSpec.word [0x100; 1; 0; 0x140; 0; 0; 0; 0; 1; owner; 0])).
Proof.
  intros Hv.
  unfold encode, setup_fragment, inputs.
  cbn [length Nat.eqb map combine fst snd encode1 sequence option_map is_dynamic].
  rewrite (getAddress_valid owner Hv).
  unfold SafeSpec.word.
  cbn [map concat].
  change (Buf.be 32 owner) with (Buf.be (12 + 20) owner).
  rewrite (be_zero_fill 12 20 owner (valid_address_range owner Hv)).
  pose proof (be_length 20 owner) as Hlen.
  destruct (Buf.be 20 owner) as [|w1 [|w2 [|w3 [|w4 [|w5 [|w6 [|w7 [|w8 [|w9 [|w10
    [|w11 [|w12 [|w13 [|w14 [|w15 [|w16 [|w17 [|w18 [|w19 [|w20 [|? ?]]]]]]]]]]]]]]]]]]]]];
    try discriminate Hlen.
  vm_compute. reflexivity.
Qed.

Lemma setup_sighash : sighash setup_fragment = SafeSpec.setup_selector.
Proof. vm_compute. reflexivity. Qed.

Lemma pack_hash_nonce (h : Buf.bytes) :
  length h = 32%nat ->
  solidityPack [PBytes32; PUint256] [AData h; ANumber 0] = Some (h ++ SafeSpec.word 0).
Proof.
  intros Hh. unfold solidityPack.
  cbn [length Nat.eqb map combine fst snd pack1].
  rewrite Hh. cbn [Nat.eqb sequence option_map concat].
  change (if 0 <? 0 then 0 + 2 ^ 256 else 0) with 0.
  change ((0 <=? 0) && (0 <? 2 ^ 256)) with true.
  cbn [sequence option_map concat]. now rewrite app_nil_r.
Qed.

Lemma pack_code_singleton (code : Buf.bytes) (singleton : Z) :
  0 <= singleton < 2 ^ 256 ->
  solidityPack [PBytes; PUint256] [AData code; AAddress singleton]
  = Some (code ++ SafeSpec.word singleton).
Proof.
  intros Hs. unfold solidityPack.
  cbn [length Nat.eqb map combine fst snd pack1].
  destruct (Z.ltb_spec singleton 0); [lia|].
  destruct (Z.leb_spec 0 singleton); [|lia].
  destruct (Z.ltb_spec singleton (2 ^ 256)); [|lia].
  cbn [andb sequence option_map concat]. now rewrite app_nil_r.
Qed.

Lemma getCreate2Address_spec (from : Z) (salt h : Buf.bytes) :
  valid_address from = true -> length salt = 32%nat -> length h = 32%nat ->
  getCreate2Address from salt h = Some (checksum (SafeSpec.create2 from salt h)).
Proof.
  intros Hv Hs Hh. unfold getCreate2Address.
  rewrite Hs, Hh, (getAddress_valid from Hv). reflexivity.
Qed.

(** C2: on addresses, [calculateSafeAddress] returns (in checksummed form)
    the address the specification's derivation gives: the hand-laid-out
    [setup] call data for owners = [owner], threshold = 1 and zero or
    empty remaining arguments; salt = keccak256(keccak256(call data) ++
    uint256(0)); init code = proxy bytecode ++ uint256(singleton); and
    CREATE2 of (proxyFactory, salt, keccak256(init code)). *)
Theorem calculateSafeAddress_follows_spec (ownerAddress proxyFactory singleton : Z) :
  valid_address ownerAddress = true ->
  valid_address proxyFactory = true ->
  0 <= singleton < 2 ^ 256 ->
  calculateSafeAddress ownerAddress proxyFactory singleton
  = Some (checksum (SafeSpec.address ownerAddress proxyFactory singleton)).
Proof.
  intros Ho Hf Hs.
  unfold calculateSafeAddress, encodeFunctionData.
  rewrite (encode_setup_args ownerAddress Ho), setup_sighash.
  cbn [option_map].
  rewrite pack_hash_nonce by apply keccak256_length.
  rewrite (pack_code_singleton proxyBytecode singleton Hs).
  rewrite getCreate2Address_spec by (assumption || apply keccak256_length).
  unfold SafeSpec.address, SafeSpec.salt, SafeSpec.initCode, SafeSpec.setupCalldata.
  reflexivity.
Qed.

Lemma calculateSafeAddress_follows_spec_witness :
  calculateSafeAddress sample_owner POLYGON_safeProxyFactory POLYGON_safeSingleton
  = Some (checksum (SafeSpec.address sample_owner POLYGON_safeProxyFactory
                                     POLYGON_safeSingleton)).
Proof.
  apply (calculateSafeAddress_follows_spec
           sample_owner POLYGON_safeProxyFactory POLYGON_safeSingleton).
  - vm_compute; reflexivity.
  - vm_compute; reflexivity.
  - vm_compute; split; [discriminate | reflexivity].
Defined.

(** Without the selector the two encodings would coincide: the initializer
    [predictSafeAddress] hashes is the [setup] call data less its first
    four bytes. *)
Lemma predict_initializer_lacks_selector (owner : Z) (setupData : Buf.bytes) :
  encodeFunctionData setup_fragment (setup_args owner) = Some setupData ->
  encode (inputs setup_fragment) (setup_args owner) = Some (skipn 4 setupData).
Proof.
  unfold encodeFunctionData. rewrite setup_sighash.
  destruct (encode (inputs setup_fragment) (setup_args owner)) as [d|]; [|discriminate].
  cbn [option_map]. intros H. injection H as <-. reflexivity.
Qed.

(** C1 fails on the code: for the owner 0x5aAe...eAed the two routines,
    each with its default factory and singleton, return different
    addresses. *)
Theorem predict_and_calculate_disagree :
  predictSafeAddress_default sample_owner
    = Some (Js.lit "0xb2c54f098976F79052c96F136Ca36876E5dd80D2") /\
  calculateSafeAddress_default sample_owner
    = Some (Js.lit "0x1Ee4A44990A7047fCc1f2f068c865818F6B91571") /\
  predictSafeAddress_default sample_owner <> calculateSafeAddress_default sample_owner.
Proof.
  assert (Hp : predictSafeAddress_default sample_owner
               = Some (Js.lit "0xb2c54f098976F79052c96F136Ca36876E5dd80D2"))
    by (vm_compute; reflexivity).
  assert (Hc : calculateSafeAddress_default sample_owner
               = Some (Js.lit "0x1Ee4A44990A7047fCc1f2f068c865818F6B91571"))
    by (vm_compute; reflexivity).
  split; [exact Hp|]. split; [exact Hc|].
  rewrite Hp, Hc. vm_compute. discriminate.
Qed.

End SafeAddress.

(* ================================================================== *)
(** ** Text encodings *)

(** Decide the integer comparisons in the goal, closing absurd branches. *)
Ltac zcases :=
  repeat (match goal with
          | |- context [(?a <=? ?b)] => destruct (Z.leb_spec a b)
          | |- context [(?a <? ?b)] => destruct (Z.ltb_spec a b)
          | |- context [(?a =? ?b)] => destruct (Z.eqb_spec a b)
          end; cbn [andb orb negb]; try lia).

(** Linear arithmetic with division and remainder by constants. *)
Ltac zdiv := Z.to_euclidean_division_equations; lia.

Section Utf8Decoding.
Import Utf8.

Lemma decode_1 (b : Z) (r : Buf.bytes) :
  0 <= b < 0x80 -> decode (b :: r) = b :: decode r.
Proof. intros H. cbn [decode]. zcases; reflexivity. Qed.

Lemma decode_2 (b0 b1 : Z) (r : Buf.bytes) :
  0xC2 <= b0 <= 0xDF -> 0x80 <= b1 <= 0xBF ->
  decode (b0 :: b1 :: r) = ((b0 - 0xC0) * 64 + (b1 - 0x80)) :: decode r.
Proof. intros H0 H1. cbn [decode]. unfold cont. zcases; reflexivity. Qed.

Lemma decode_3 (b0 b1 b2 : Z) (r : Buf.bytes) :
  0xE0 <= b0 <= 0xEF -> 0x80 <= b1 <= 0xBF -> 0x80 <= b2 <= 0xBF ->
  (b0 = 0xE0 -> 0xA0 <= b1) -> (b0 = 0xED -> b1 <= 0x9F) ->
  decode (b0 :: b1 :: b2 :: r)
  = ((b0 - 0xE0) * 4096 + (b1 - 0x80) * 64 + (b2 - 0x80)) :: decode r.
Proof.
  intros H0 H1 H2 HE0 HED. cbn [decode]. unfold second3, cont. zcases; reflexivity.
Qed.

Lemma decode_4 (b0 b1 b2 b3 : Z) (r : Buf.bytes) :
  0xF0 <= b0 <= 0xF4 -> 0x80 <= b1 <= 0xBF -> 0x80 <= b2 <= 0xBF -> 0x80 <= b3 <= 0xBF ->
  (b0 = 0xF0 -> 0x90 <= b1) -> (b0 = 0xF4 -> b1 <= 0x8F) ->
  decode (b0 :: b1 :: b2 :: b3 :: r)
  = pair_of ((b0 - 0xF0) * 262144 + (b1 - 0x80) * 4096 + (b2 - 0x80) * 64 + (b3 - 0x80))
      ++ decode r.
Proof.
  intros H0 H1 H2 H3 HF0 HF4. cbn [decode]. unfold second4, cont. zcases; reflexivity.
Qed.

Lemma surrogate_tests (u : Z) :
  (is_high u = true <-> 0xD800 <= u <= 0xDBFF) /\
  (is_low u = true <-> 0xDC00 <= u <= 0xDFFF).
Proof.
  unfold is_high, is_low. split; split; zcases; intros; (lia || discriminate || reflexivity).
Qed.

Lemma utf8_roundtrip_bounded (n : nat) :
  forall s, (length s <= n)%nat -> well_formed s = true ->
            decode (encode s) = s /\ Buf.wf (encode s).
Proof.
  induction n as [|n IH]; intros s Hlen Hwf.
  { destruct s; [split; [reflexivity | constructor] | cbn in Hlen; lia]. }
  destruct s as [|u r]; [split; [reflexivity | constructor]|].
  cbn [length] in Hlen. cbn [well_formed] in Hwf.
  destruct (Z.leb_spec 0 u); destruct (Z.ltb_spec u 65536);
    cbn [andb negb] in Hwf; try discriminate.
  destruct (surrogate_tests u) as [Hhigh Hlow].
  cbn [encode].
  destruct (Z.ltb_spec u 0x80).
  { destruct (is_high u); [lia|]. destruct (is_low u); [lia|].
    destruct (IH r ltac:(lia) Hwf) as [Hd Hw]. split.
    - rewrite decode_1 by lia. now rewrite Hd.
    - constructor; [unfold Buf.is_byte; lia | exact Hw]. }
  destruct (Z.ltb_spec u 0x800).
  { destruct (is_high u); [lia|]. destruct (is_low u); [lia|].
    destruct (IH r ltac:(lia) Hwf) as [Hd Hw]. cbn [app]. split.
    - rewrite decode_2 by zdiv. rewrite Hd. f_equal. zdiv.
    - repeat constructor; try exact Hw; unfold Buf.is_byte; zdiv. }
  destruct (is_high u) eqn:Eh.
  { destruct r as [|v r']; [discriminate|].
    destruct (surrogate_tests v) as [_ Hlow'].
    destruct (is_low v); [|discriminate]. cbn [andb] in Hwf.
    cbn [length] in Hlen.
    destruct (IH r' ltac:(lia) Hwf) as [Hd Hw]. cbn [app].
    assert (0xD800 <= u <= 0xDBFF) by (apply Hhigh; reflexivity).
    assert (0xDC00 <= v <= 0xDFFF) by (apply Hlow'; reflexivity).
    set (cp := 0x10000 + (u - 0xD800) * 1024 + (v - 0xDC00)).
    assert (0x10000 <= cp <= 0x10FFFF) by (unfold cp; lia).
    split.
    - rewrite decode_4 by zdiv. rewrite Hd. unfold pair_of. cbn [app].
      f_equal; [|f_equal]; unfold cp; zdiv.
    - repeat constructor; try exact Hw; unfold Buf.is_byte; zdiv. }
  destruct (is_low u) eqn:El; [discriminate|]. cbn [negb andb] in Hwf.
  destruct (IH r ltac:(lia) Hwf) as [Hd Hw]. cbn [app].
  assert (~ (0xD800 <= u <= 0xDBFF)) by (intros Hc; apply Hhigh in Hc; discriminate).
  assert (~ (0xDC00 <= u <= 0xDFFF)) by (intros Hc; apply Hlow in Hc; discriminate).
  split.
  - rewrite decode_3 by zdiv. rewrite Hd. f_equal. zdiv.
  - repeat constructor; try exact Hw; unfold Buf.is_byte; zdiv.
Qed.

(** Encoding a string without unpaired surrogates and decoding the bytes
    gives the string back. *)
Lemma utf8_roundtrip (s : Js.jsstring) :
  well_formed s = true -> decode (encode s) = s.
Proof. intros H. exact (proj1 (utf8_roundtrip_bounded (length s) s (le_n _) H)). Qed.

Lemma utf8_encode_wf (s : Js.jsstring) : well_formed s = true -> Buf.wf (encode s).
Proof. intros H. exact (proj2 (utf8_roundtrip_bounded (length s) s (le_n _) H)). Qed.

End Utf8Decoding.

Section Base64Coding.
Import Base64.

Lemma unbase64_digit (url : bool) (v : Z) :
  is_sextet v -> unbase64 (digit url v) = Some v /\ digit url v <> pad_char.
Proof.
  unfold is_sextet, unbase64, digit, pad_char. intros Hv.
  destruct url; zcases; split; (lia || (f_equal; lia)).
Qed.

Lemma sextets_digits (url : bool) (l : list Z) (rest : Js.jsstring) :
  Forall is_sextet l -> sextets (map (digit url) l ++ rest) = l ++ sextets rest.
Proof.
  induction 1 as [|v l Hv Hl IH]; [reflexivity|].
  cbn [map app sextets].
  destruct (unbase64_digit url v Hv) as [Hu Hp].
  destruct (Z.eqb_spec (digit url v) pad_char); [contradiction|].
  now rewrite Hu, IH.
Qed.

Lemma sextets_padding (k : nat) : sextets (repeat pad_char k) = [].
Proof. destruct k; reflexivity. Qed.

Lemma sextets_of_range (bs : Buf.bytes) : Buf.wf bs -> Forall is_sextet (sextets_of bs).
Proof.
  unfold Buf.wf.
  induction bs as [| a | a b | a b c r IH] using list_ind3; intros H.
  - constructor.
  - inversion_clear H as [|? ? Ha _]. unfold Buf.is_byte in Ha.
    cbn [sextets_of]. repeat constructor; unfold is_sextet; zdiv.
  - inversion_clear H as [|? ? Ha H']. inversion_clear H' as [|? ? Hb _].
    unfold Buf.is_byte in *.
    cbn [sextets_of]. repeat constructor; unfold is_sextet; zdiv.
  - inversion_clear H as [|? ? Ha H']. inversion_clear H' as [|? ? Hb H''].
    inversion_clear H'' as [|? ? Hc Hr]. unfold Buf.is_byte in *.
    change (sextets_of (a :: b :: c :: r))
      with ([a / 4; a mod 4 * 16 + b / 16; b mod 16 * 4 + c / 64; c mod 64]
              ++ sextets_of r).
    apply Forall_app. split; [|exact (IH Hr)].
    repeat constructor; unfold is_sextet; zdiv.
Qed.

Lemma group_sextets_of (bs : Buf.bytes) : Buf.wf bs -> group (sextets_of bs) = bs.
Proof.
  unfold Buf.wf.
  induction bs as [| a | a b | a b c r IH] using list_ind3; intros H.
  - reflexivity.
  - inversion_clear H as [|? ? Ha _]. unfold Buf.is_byte in Ha.
    cbn [sextets_of group]. f_equal. zdiv.
  - inversion_clear H as [|? ? Ha H']. inversion_clear H' as [|? ? Hb _].
    unfold Buf.is_byte in *.
    cbn [sextets_of group]. f_equal; [|f_equal]; zdiv.
  - inversion_clear H as [|? ? Ha H']. inversion_clear H' as [|? ? Hb H''].
    inversion_clear H'' as [|? ? Hc Hr]. unfold Buf.is_byte in *.
    change (sextets_of (a :: b :: c :: r))
      with ([a / 4; a mod 4 * 16 + b / 16; b mod 16 * 4 + c / 64; c mod 64]
              ++ sextets_of r).
    cbn [app group]. rewrite (IH Hr).
    f_equal; [|f_equal; [|f_equal]]; zdiv.
Qed.

(** Decoding the base64 form of a buffer gives the buffer back. *)
Lemma base64_roundtrip (bs : Buf.bytes) : Buf.wf bs -> decode (encode bs) = bs.
Proof.
  intros H. unfold decode, encode.
  rewrite sextets_digits by (apply sextets_of_range; exact H).
  rewrite sextets_padding, app_nil_r. apply group_sextets_of; exact H.
Qed.

Lemma mod3_step (n : nat) : (S (S (S n)) mod 3 = n mod 3)%nat.
Proof.
  change (S (S (S n))) with (3 + n)%nat.
  rewrite Nat.add_comm. exact (Nat.Div0.mod_add n 1 3).
Qed.

Lemma encode_cons3 (a b c : Z) (r : Buf.bytes) :
  encode (a :: b :: c :: r)
  = map (digit false) [a / 4; a mod 4 * 16 + b / 16; b mod 16 * 4 + c / 64; c mod 64]
      ++ encode r.
Proof.
  unfold encode.
  change (sextets_of (a :: b :: c :: r))
    with ([a / 4; a mod 4 * 16 + b / 16; b mod 16 * 4 + c / 64; c mod 64]
            ++ sextets_of r).
  rewrite map_app, <- app_assoc. cbn [length]. now rewrite mod3_step.
Qed.

(** What [update(.., 'base64')] returns followed by what [final('base64')]
    returns is the base64 form of the whole output. *)
Lemma decoder_write_end (buf : Buf.bytes) :
  fst (KeyVault.decoder_write buf) ++ KeyVault.decoder_end (snd (KeyVault.decoder_write buf))
  = encode buf.
Proof.
  unfold KeyVault.decoder_write, KeyVault.decoder_end. cbn [fst snd].
  induction buf as [| a | a b | a b c r IH] using list_ind3; try reflexivity.
  cbn [length]. rewrite mod3_step.
  replace (S (S (S (length r))) - length r mod 3)%nat
    with (S (S (S (length r - length r mod 3)))).
  - cbn [firstn skipn]. rewrite !encode_cons3, <- app_assoc, IH. reflexivity.
  - pose proof (Nat.Div0.mod_le (length r) 3). lia.
Qed.

End Base64Coding.

(* ================================================================== *)
(** ** Byte ranges and lengths through AES-GCM *)

Lemma lxor_byte (a b : Z) : Buf.is_byte a -> Buf.is_byte b -> Buf.is_byte (Z.lxor a b).
Proof.
  unfold Buf.is_byte. intros [Ha Ha'] [Hb Hb'].
  assert (Hx : 0 <= Z.lxor a b) by (apply Z.lxor_nonneg; tauto).
  split; [exact Hx|].
  destruct (Z.eq_dec (Z.lxor a b) 0) as [-> | Hne]; [lia|].
  change 256 with (2 ^ 8). apply Z.log2_lt_pow2; [lia|].
  pose proof (Z.log2_lxor a b Ha Hb) as Hlog.
  assert (La : Z.log2 a < 8).
  { destruct (Z.eq_dec a 0) as [-> | ?]; [cbn; lia|]. apply Z.log2_lt_pow2; lia. }
  assert (Lb : Z.log2 b < 8).
  { destruct (Z.eq_dec b 0) as [-> | ?]; [cbn; lia|]. apply Z.log2_lt_pow2; lia. }
  lia.
Qed.

Lemma wf_check (l : Buf.bytes) :
  forallb (fun b => (0 <=? b) && (b <? 256)) l = true -> Buf.wf l.
Proof.
  intros H. apply Forall_forall. intros x Hx.
  rewrite forallb_forall in H. specialize (H x Hx).
  apply andb_prop in H as [H1 H2]. apply Z.leb_le in H1. apply Z.ltb_lt in H2.
  split; assumption.
Qed.

Lemma nth_byte (l : Buf.bytes) (i : nat) : Buf.wf l -> Buf.is_byte (nth i l 0).
Proof.
  intros H. revert i. induction H as [|x l Hx Hl IH]; intros [|i]; cbn [nth];
    try (unfold Buf.is_byte; lia); auto.
Qed.

Lemma nth_word_wf (ws : list Buf.bytes) (i : nat) : Forall Buf.wf ws -> Buf.wf (nth i ws []).
Proof.
  intros H. revert i. induction H as [|w ws Hw Hws IH]; intros [|i]; cbn [nth];
    try constructor; auto.
Qed.

Lemma be_wf (n : nat) (z : Z) : Buf.wf (Buf.be n z).
Proof.
  revert z; induction n as [|n IH]; intros z; cbn [Buf.be]; [constructor|].
  apply Forall_app. split; [apply IH|].
  constructor; [|constructor]. unfold Buf.is_byte. apply Z.mod_pos_bound. lia.
Qed.

Lemma firstn_wf (n : nat) (bs : Buf.bytes) : Buf.wf bs -> Buf.wf (firstn n bs).
Proof.
  unfold Buf.wf. intros H. revert n.
  induction H as [|x l Hx Hl IH]; intros [|n]; cbn [firstn]; constructor;
    [exact Hx | apply IH].
Qed.

Lemma skipn_wf (n : nat) (bs : Buf.bytes) : Buf.wf bs -> Buf.wf (skipn n bs).
Proof.
  unfold Buf.wf. intros H. revert n.
  induction H as [|x l Hx Hl IH]; intros [|n]; cbn [skipn];
    [constructor | constructor | constructor; assumption | apply IH].
Qed.

Lemma chunks_wf (n : nat) (bs : Buf.bytes) : Buf.wf bs -> Forall Buf.wf (Buf.chunks n bs).
Proof.
  unfold Buf.chunks. generalize (length bs) as fuel. intros fuel. revert bs.
  induction fuel as [|fuel IH]; intros bs H; cbn [Buf.chunks_fuel]; [constructor|].
  destruct bs as [|b bs']; [constructor|].
  constructor; [apply firstn_wf; exact H | apply IH, skipn_wf; exact H].
Qed.

Lemma xor_wf (a b : Buf.bytes) : Buf.wf a -> Buf.wf b -> Buf.wf (Buf.xor a b).
Proof.
  intros Ha. revert b. induction Ha as [|x a Hx Ha IH]; intros [|y b] Hb; try constructor.
  - apply lxor_byte; [exact Hx | now inversion Hb].
  - apply IH. now inversion Hb.
Qed.

Lemma xor_length (a b : Buf.bytes) : length (Buf.xor a b) = Nat.min (length a) (length b).
Proof. unfold Buf.xor. now rewrite length_map, length_combine. Qed.

(** XOR with the same key stream twice is the identity, as long as the key
    stream covers the data. *)
Lemma xor_involutive (a k : Buf.bytes) :
  (length a <= length k)%nat -> Buf.xor (Buf.xor a k) k = a.
Proof.
  revert k. induction a as [|x a IH]; intros [|y k] H; cbn [length] in H;
    try reflexivity; [lia|].
  unfold Buf.xor in *. cbn [combine map fst snd]. rewrite IH by lia.
  now rewrite Z.lxor_assoc, Z.lxor_nilpotent, Z.lxor_0_r.
Qed.

Lemma flat_map_length_const {A} (f : A -> Buf.bytes) (l : list A) (k : nat) :
  (forall x, length (f x) = k) -> length (flat_map f l) = (k * length l)%nat.
Proof.
  intros H. induction l as [|x l IH]; cbn [flat_map length]; [lia|].
  rewrite length_app, H, IH. lia.
Qed.

Section AesShape.
Import Aes.

Lemma sbox_table_wf : Buf.wf sbox_table.
Proof. apply wf_check. vm_compute. reflexivity. Qed.

Lemma sbox_byte (x : Z) : Buf.is_byte (sbox x).
Proof. unfold sbox. apply nth_byte, sbox_table_wf. Qed.

Lemma sub_word_wf (w : Buf.bytes) : Buf.wf (map sbox w).
Proof. apply Forall_forall. intros y Hy. apply in_map_iff in Hy as (x & <- & _). apply sbox_byte. Qed.

Lemma xor_n_wf (n : nat) (a b : Buf.bytes) : Buf.wf a -> Buf.wf b -> Buf.wf (xor_n n a b).
Proof.
  intros Ha Hb. unfold xor_n. apply Forall_forall. intros y Hy.
  apply in_map_iff in Hy as (i & <- & _). apply lxor_byte; apply nth_byte; assumption.
Qed.

Lemma xor_n_length (n : nat) (a b : Buf.bytes) : length (xor_n n a b) = n.
Proof. unfold xor_n. now rewrite length_map, length_seq. Qed.

Lemma xtime_byte (b : Z) : Buf.is_byte (xtime b).
Proof.
  unfold xtime. apply lxor_byte.
  - unfold Buf.is_byte. apply Z.mod_pos_bound. lia.
  - unfold Buf.is_byte. destruct (128 <=? b); lia.
Qed.

Lemma rcon_byte (i : nat) : Buf.is_byte (rcon i).
Proof.
  destruct i as [|[|i]]; cbn [rcon]; try (unfold Buf.is_byte; lia). apply xtime_byte.
Qed.

Lemma expand_wf (n i : nat) (ws : list Buf.bytes) :
  Forall Buf.wf ws -> Forall Buf.wf (expand n i ws).
Proof.
  revert i ws. induction n as [|n IH]; intros i ws H; cbn [expand]; [exact H|].
  apply IH. apply Forall_app. split; [exact H|].
  constructor; [|constructor].
  apply xor_n_wf; [apply nth_word_wf; exact H|].
  destruct (Nat.eqb (i mod 8) 0).
  - apply xor_n_wf; [apply sub_word_wf|].
    constructor; [apply rcon_byte|].
    repeat (constructor; [unfold Buf.is_byte; lia|]). constructor.
  - destruct (Nat.eqb (i mod 8) 4); [apply sub_word_wf | apply nth_word_wf; exact H].
Qed.

Lemma key_schedule_wf (key : Buf.bytes) : Buf.wf key -> Forall Buf.wf (key_schedule key).
Proof. intros H. unfold key_schedule. apply expand_wf. apply chunks_wf. exact H. Qed.

Lemma round_key_wf (ks : list Buf.bytes) (r : nat) :
  Forall Buf.wf ks -> Buf.wf (round_key ks r).
Proof.
  intros H. unfold round_key. apply Forall_flat_map, Forall_forall.
  intros j _. apply nth_word_wf, H.
Qed.

Lemma shift_rows_wf (st : Buf.bytes) : Buf.wf st -> Buf.wf (shift_rows st).
Proof.
  intros H. unfold shift_rows. apply Forall_forall. intros y Hy.
  apply in_map_iff in Hy as (i & <- & _). apply nth_byte, H.
Qed.

Lemma cipher_length (ks : list Buf.bytes) (blk : Buf.bytes) : length (cipher ks blk) = 16%nat.
Proof. unfold cipher. apply xor_n_length. Qed.

Lemma cipher_wf (ks : list Buf.bytes) (blk : Buf.bytes) :
  Forall Buf.wf ks -> Buf.wf (cipher ks blk).
Proof.
  intros H. unfold cipher. apply xor_n_wf.
  - apply shift_rows_wf, sub_word_wf.
  - apply round_key_wf, H.
Qed.

End AesShape.

Section GcmRoundTrip.
Import Gcm.

Variable E : Buf.bytes -> Buf.bytes.
Hypothesis E_length : forall blk, length (E blk) = 16%nat.

Lemma keystream_length (j : Z) (n : nat) : length (keystream E j n) = (16 * n)%nat.
Proof.
  unfold keystream.
  rewrite (flat_map_length_const _ (seq 1 n) 16) by (intros i; apply E_length).
  now rewrite length_seq.
Qed.

Lemma keystream_wf (j : Z) (n : nat) :
  (forall blk, Buf.wf (E blk)) -> Buf.wf (keystream E j n).
Proof.
  intros H. unfold keystream. apply Forall_flat_map, Forall_forall. intros i _. apply H.
Qed.

Lemma nblocks_cover (d : Buf.bytes) : (length d <= 16 * nblocks d)%nat.
Proof.
  unfold nblocks.
  pose proof (Nat.div_mod_eq (length d + 15) 16).
  pose proof (Nat.mod_upper_bound (length d + 15) 16 ltac:(discriminate)).
  lia.
Qed.

Lemma gctr_length (j : Z) (d : Buf.bytes) : length (gctr E j d) = length d.
Proof.
  unfold gctr. rewrite xor_length, keystream_length.
  pose proof (nblocks_cover d). lia.
Qed.

Lemma gctr_involutive (j : Z) (d : Buf.bytes) : gctr E j (gctr E j d) = d.
Proof.
  unfold gctr at 1. unfold nblocks. rewrite gctr_length. fold (nblocks d).
  unfold gctr. apply xor_involutive. rewrite keystream_length. apply nblocks_cover.
Qed.

Lemma gctr_wf (j : Z) (d : Buf.bytes) :
  (forall blk, Buf.wf (E blk)) -> Buf.wf d -> Buf.wf (gctr E j d).
Proof. intros HE Hd. unfold gctr. apply xor_wf; [exact Hd | apply keystream_wf, HE]. Qed.

End GcmRoundTrip.

(** Decrypting what [Gcm.encrypt] produced, under the same key and IV,
    authenticates and gives the plain bytes back. *)
Lemma gcm_roundtrip (key iv plain : Buf.bytes) :
  Gcm.decrypt key iv (fst (Gcm.encrypt key iv plain)) (snd (Gcm.encrypt key iv plain))
  = Some plain.
Proof.
  unfold Gcm.decrypt, Gcm.encrypt. cbn [fst snd].
  rewrite buf_eqb_refl. f_equal. apply gctr_involutive. intros blk. apply cipher_length.
Qed.

Lemma gcm_encrypt_shape (key iv plain : Buf.bytes) :
  Buf.wf key -> Buf.wf plain ->
  Buf.wf (fst (Gcm.encrypt key iv plain)) /\
  Buf.wf (snd (Gcm.encrypt key iv plain)) /\
  length (snd (Gcm.encrypt key iv plain)) = 16%nat.
Proof.
  intros Hk Hp. unfold Gcm.encrypt, Gcm.tag. cbn [fst snd]. split; [|split].
  - apply gctr_wf; [|exact Hp]. intros blk. apply cipher_wf, key_schedule_wf, Hk.
  - apply be_wf.
  - apply be_length.
Qed.

(* ================================================================== *)
(** ** KeyVault encryption (crypto/key-vault.ts) *)

Section KeyVaultRoundTrip.
Import KeyVault.

Variables (v : t) (random_iv : Buf.bytes).
Hypothesis key_length : length (masterKey v) = 32%nat.
Hypothesis key_wf : Buf.wf (masterKey v).
Hypothesis iv_length : length random_iv = ivLength.
Hypothesis iv_wf : Buf.wf random_iv.

Lemma check_key_iv_ok : check_key_iv (masterKey v) random_iv = Ok tt.
Proof. unfold check_key_iv. now rewrite key_length, iv_length. Qed.

(** What [encrypt] returns, field by field. *)
Lemma encrypt_fields (plaintext : Js.jsstring) :
  encrypt v random_iv plaintext
  = Ok {| encrypted :=
            Base64.encode (fst (Gcm.encrypt (masterKey v) random_iv (Utf8.encode plaintext)));
          iv := Base64.encode random_iv;
          authTag :=
            Base64.encode (snd (Gcm.encrypt (masterKey v) random_iv (Utf8.encode plaintext)))
       |}.
Proof.
  unfold encrypt. rewrite check_key_iv_ok. cbn [bind].
  destruct (Gcm.encrypt (masterKey v) random_iv (Utf8.encode plaintext)) as [c tg].
  cbn [fst snd].
  pose proof (decoder_write_end c) as Hd.
  destruct (decoder_write c) as [written kept]. cbn [fst snd] in Hd.
  now rewrite Hd.
Qed.

(** C3, as the code has it: for a vault holding a 32-byte key and any
    16-byte IV, [decrypt (encrypt P)] returns [P] for every plaintext [P]
    whose surrogate code units are all paired. *)
Theorem decrypt_encrypt_well_formed (plaintext : Js.jsstring) :
  Utf8.well_formed plaintext = true ->
  exists blob,
    encrypt v random_iv plaintext = Ok blob /\ decrypt v blob = Ok plaintext.
Proof.
  intros Hwf. eexists. split; [apply encrypt_fields|].
  destruct (gcm_encrypt_shape (masterKey v) random_iv (Utf8.encode plaintext)
              key_wf (utf8_encode_wf plaintext Hwf)) as (Hc & Htag & Htaglen).
  unfold decrypt. cbn [iv authTag encrypted].
  rewrite !base64_roundtrip by assumption.
  rewrite check_key_iv_ok. cbn [bind].
  rewrite Htaglen. cbn [authTagLength Nat.eqb negb].
  rewrite gcm_roundtrip. now rewrite utf8_roundtrip.
Qed.

End KeyVaultRoundTrip.

Section KeyVaultExamples.
Import KeyVault Samples.

Lemma decrypt_encrypt_well_formed_witness :
  exists blob,
    encrypt sample_vault sample_iv sample_plaintext = Ok blob /\
    decrypt sample_vault blob = Ok sample_plaintext.
Proof.
  apply (decrypt_encrypt_well_formed sample_vault sample_iv).
  - reflexivity.
  - apply wf_check. vm_compute. reflexivity.
  - reflexivity.
  - apply wf_check. vm_compute. reflexivity.
  - vm_compute. reflexivity.
Defined.

(** C3 as stated fails: a plaintext holding an unpaired surrogate comes
    back as U+FFFD. *)
Lemma decrypt_encrypt_lone_surrogate :
  exists blob,
    encrypt sample_vault sample_iv lone_surrogate = Ok blob /\
    decrypt sample_vault blob = Ok [0xFFFD] /\
    decrypt sample_vault blob <> Ok lone_surrogate.
Proof.
  eexists. split; [vm_compute; reflexivity|].
  split; [vm_compute; reflexivity|].
  vm_compute. discriminate.
Qed.

End KeyVaultExamples.

(* ================================================================== *)
(** ** More on request signing (crypto/hmac.ts) *)

Section Sha256Shape.
Import Sha256.

Lemma step_length (s : list Z) (kw : Z * Z) : length (step s kw) = length s.
Proof.
  destruct s as [|a [|b [|c [|d [|e [|f [|g [|h [|i r]]]]]]]]]; reflexivity.
Qed.

Lemma steps_length (l : list (Z * Z)) (s : list Z) : length (fold_left step l s) = length s.
Proof.
  revert s. induction l as [|kw l IH]; intros s; cbn [fold_left]; [reflexivity|].
  now rewrite IH, step_length.
Qed.

Lemma compress_length (h : list Z) (blk : Buf.bytes) : length (compress h blk) = length h.
Proof.
  unfold compress. rewrite length_map, length_combine, steps_length. apply Nat.min_id.
Qed.

Lemma compress_all_length (blocks : list Buf.bytes) (h : list Z) :
  length (fold_left compress blocks h) = length h.
Proof.
  revert h. induction blocks as [|blk blocks IH]; intros h; cbn [fold_left]; [reflexivity|].
  now rewrite IH, compress_length.
Qed.

Lemma sha256_length (msg : Buf.bytes) : length (sha256 msg) = 32%nat.
Proof.
  unfold sha256.
  rewrite (flat_map_length_const (Buf.be 4) _ 4) by (intros x; apply be_length).
  now rewrite compress_all_length.
Qed.

Lemma sha256_wf (msg : Buf.bytes) : Buf.wf (sha256 msg).
Proof.
  unfold sha256. apply Forall_flat_map, Forall_forall. intros x _. apply be_wf.
Qed.

Lemma hmac_length (key msg : Buf.bytes) : length (hmac key msg) = 32%nat.
Proof. unfold hmac. apply sha256_length. Qed.

Lemma hmac_wf (key msg : Buf.bytes) : Buf.wf (hmac key msg).
Proof. unfold hmac. apply sha256_wf. Qed.

End Sha256Shape.

Lemma to_hex_length (bs : Buf.bytes) : length (Js.to_hex bs) = (2 * length bs)%nat.
Proof.
  unfold Js.to_hex.
  rewrite (flat_map_length_const _ bs 2) by reflexivity. reflexivity.
Qed.

Lemma base64_encode_length (bs : Buf.bytes) :
  length (Base64.encode bs) = (4 * ((length bs + 2) / 3))%nat.
Proof.
  unfold Base64.encode. rewrite length_app, length_map, sextets_of_length, repeat_length.
  pose proof (Nat.div_mod_eq (length bs) 3) as Hd.
  pose proof (Nat.mod_upper_bound (length bs) 3 ltac:(discriminate)) as Hm.
  set (q := (length bs / 3)%nat) in *. set (r := (length bs mod 3)%nat) in *.
  rewrite Hd.
  destruct r as [|[|[|r]]]; try lia.
  - replace (4 * (3 * q + 0) + 2)%nat with (2 + (4 * q) * 3)%nat by lia.
    replace (3 * q + 0 + 2)%nat with (2 + q * 3)%nat by lia.
    rewrite !Nat.div_add by discriminate. cbn. lia.
  - replace (4 * (3 * q + 1) + 2)%nat with (6 + (4 * q) * 3)%nat by lia.
    replace (3 * q + 1 + 2)%nat with (3 + q * 3)%nat by lia.
    rewrite !Nat.div_add by discriminate. cbn. lia.
  - replace (4 * (3 * q + 2) + 2)%nat with (10 + (4 * q) * 3)%nat by lia.
    replace (3 * q + 2 + 2)%nat with (4 + q * 3)%nat by lia.
    rewrite !Nat.div_add by discriminate. cbn. lia.
Qed.

Section SignatureShape.
Import Hmac Json.

(** The bytes a signature stands for: the HMAC of the canonical message. *)
Lemma signature_decodes_to_mac (input : HmacSignatureInput) :
  exists mac,
    createHmacSignature input = Base64.encode mac /\
    Base64.decode (createHmacSignature input) = mac /\
    length mac = 32%nat /\ Buf.wf mac.
Proof.
  unfold createHmacSignature. eexists. split; [reflexivity|].
  split; [apply base64_roundtrip, hmac_wf|]. split; [apply hmac_length | apply hmac_wf].
Qed.



End SignatureShape.

Lemma decode_encode_then_text (bs : Buf.bytes) (text : Js.jsstring) :
  Buf.wf bs -> (length bs mod 3 <> 0)%nat ->
  Base64.decode (Base64.encode bs ++ text) = bs.
Proof.
  intros Hwf Hmod. unfold Base64.decode, Base64.encode.
  rewrite <- app_assoc, sextets_digits by (apply sextets_of_range; exact Hwf).
  pose proof (Nat.mod_upper_bound (length bs) 3 ltac:(discriminate)) as Hm.
  destruct (length bs mod 3)%nat as [|[|[|r]]]; try lia; try contradiction;
    cbn [Nat.sub Nat.modulo repeat app Base64.sextets];
    (replace (Base64.sextets _) with (@nil Z) by reflexivity);
    rewrite app_nil_r; apply group_sextets_of; exact Hwf.
Qed.

Section SignedHeaders.
Import Hmac Json HmacHeaders.

(** X3: whatever text follows a signature made by [createHmacSignature], the
    result still verifies: decoding stops at the signature's padding. *)
Theorem verify_ignores_text_after_signature (now : Z) (e : Envelope) (s : Js.jsstring)
        (window : Z) (text : Js.jsstring) :
  Z.abs (now - timestamp e) <= window * 1000 ->
  verifyHmacSignature now (createHmacSignature {| env := e; secret := s |} ++ text)
                      e s window
  = {| valid := true; reason := None |}.
Proof.
  intros Hin.
  destruct (signature_decodes_to_mac {| env := e; secret := s |})
    as (mac & Henc & Hd & Hl & Hwf).
  assert (Hdec : Base64.decode (createHmacSignature {| env := e; secret := s |} ++ text)
                 = Base64.decode (createHmacSignature {| env := e; secret := s |})).
  { rewrite Hd, Henc. apply decode_encode_then_text; [exact Hwf|]. now rewrite Hl. }
  unfold verifyHmacSignature.
  destruct (Z.gtb_spec (Z.abs (now - timestamp e)) (window * 1000)); [lia|].
  rewrite Hdec. now rewrite Nat.eqb_refl, buf_eqb_refl.
Qed.

(** X4: the headers [createSignedHeaders] makes at time [now] carry the key
    and the time in decimal, and their signature verifies, at any time
    within the window of [now], for the request they were made for. *)
Theorem signed_headers_verify (now later : Z) (config : HmacConfig) (m : Method)
        (p : Js.jsstring) (b : JsValue) (window : Z) :
  Z.abs (later - now) <= window * 1000 ->
  let h := createSignedHeaders now config m p b in
  X_Quantish_Key h = apiKey config /\
  X_Quantish_Timestamp h = int_to_string now /\
  verifyHmacSignature later (X_Quantish_Signature h)
    {| method := m; path := p; body := b; timestamp := now |} (apiSecret config) window
  = {| valid := true; reason := None |}.
Proof.
  intros Hin h. split; [reflexivity|]. split; [reflexivity|].
  unfold h, createSignedHeaders. cbn [X_Quantish_Signature].
  unfold verifyHmacSignature. cbn [timestamp].
  destruct (Z.gtb_spec (Z.abs (later - now)) (window * 1000)); [lia|].
  now rewrite Nat.eqb_refl, buf_eqb_refl.
Qed.

(** X5: an API secret is 44 characters of base64 that decode to the 32 bytes
    drawn. *)
Theorem generateApiSecret_shape (random32 : Buf.bytes) :
  length random32 = 32%nat -> Buf.wf random32 ->
  length (generateApiSecret random32) = 44%nat /\
  Base64.decode (generateApiSecret random32) = random32.
Proof.
  intros Hl Hwf. unfold generateApiSecret. split.
  - rewrite base64_encode_length, Hl. reflexivity.
  - apply base64_roundtrip, Hwf.
Qed.

End SignedHeaders.

(* ================================================================== *)
(** ** More on API keys (crypto/hmac.ts) *)

Lemma base64url_roundtrip (bs : Buf.bytes) :
  Buf.wf bs -> Base64.decode (Base64.encode_url bs) = bs.
Proof.
  intros H. unfold Base64.decode, Base64.encode_url.
  rewrite <- (app_nil_r (map _ _)).
  rewrite sextets_digits by (apply sextets_of_range; exact H).
  cbn [Base64.sextets]. rewrite app_nil_r. apply group_sextets_of; exact H.
Qed.

Lemma hexdigit_unhex (d : Z) : 0 <= d < 16 -> Js.unhex (Js.hexdigit d) = Some d.
Proof.
  intros H. unfold Js.unhex, Js.hexdigit.
  destruct (Z.ltb_spec d 10); zcases; f_equal; lia.
Qed.

(** Reading back the hexadecimal form of a buffer gives the buffer. *)
Lemma hex_roundtrip (bs : Buf.bytes) : Buf.wf bs -> Js.from_hex (Js.to_hex bs) = bs.
Proof.
  induction 1 as [|b bs Hb Hbs IH]; [reflexivity|].
  unfold Buf.is_byte in Hb.
  change (Js.to_hex (b :: bs))
    with (Js.hexdigit (b / 16) :: Js.hexdigit (b mod 16) :: Js.to_hex bs).
  cbn [Js.from_hex].
  rewrite !hexdigit_unhex by zdiv. rewrite IH. f_equal. zdiv.
Qed.

Lemma to_hex_digits (bs : Buf.bytes) :
  Buf.wf bs -> forallb Js.is_hex_char (Js.to_hex bs) = true.
Proof.
  induction 1 as [|b bs Hb Hbs IH]; [reflexivity|].
  unfold Buf.is_byte in Hb.
  change (Js.to_hex (b :: bs))
    with (Js.hexdigit (b / 16) :: Js.hexdigit (b mod 16) :: Js.to_hex bs).
  cbn [forallb]. unfold Js.is_hex_char at 1 2.
  rewrite !hexdigit_unhex by zdiv. exact IH.
Qed.

Section ApiKeysMore.
Import Hmac.

(** X6: keys made from different random bytes are different keys. *)
Theorem generateApiKey_injective (prefix : Js.jsstring) (r1 r2 : Buf.bytes) :
  Buf.wf r1 -> Buf.wf r2 ->
  key (generateApiKey prefix r1) = key (generateApiKey prefix r2) -> r1 = r2.
Proof.
  intros H1 H2 Hk. unfold generateApiKey in Hk. cbn [key] in Hk.
  apply app_inv_head in Hk. apply app_inv_head in Hk.
  rewrite <- (base64url_roundtrip r1 H1), <- (base64url_roundtrip r2 H2).
  now rewrite Hk.
Qed.

(** X7: for the prefix "qnt" the stored display prefix shows the first 8
    characters of the random part: it is fixed by the first 6 random bytes
    alone. *)
Theorem keyPrefix_shows_six_bytes (random24 : Buf.bytes) :
  (6 <= length random24)%nat ->
  keyPrefix (generateApiKey (Js.lit "qnt") random24)
  = Js.lit "qnt_" ++ Base64.encode_url (firstn 6 random24).
Proof.
  intros Hlen.
  destruct random24 as [|a [|b [|c [|d [|e [|f r]]]]]]; cbn [length] in Hlen; try lia.
  reflexivity.
Qed.

(** X8: a key hash is 64 lower-case hexadecimal digits. *)
Theorem hashApiKey_shape (k : Js.jsstring) :
  length (hashApiKey k) = 64%nat /\
  forallb (fun c => ((48 <=? c) && (c <=? 57)) || ((97 <=? c) && (c <=? 102)))
          (hashApiKey k) = true.
Proof.
  unfold hashApiKey. split.
  - now rewrite to_hex_length, sha256_length.
  - generalize (sha256_wf (Utf8.encode k)). generalize (Sha256.sha256 (Utf8.encode k)).
    induction 1 as [|b bs Hb Hbs IH]; [reflexivity|].
    unfold Buf.is_byte in Hb.
    change (Js.to_hex (b :: bs))
      with (Js.hexdigit (b / 16) :: Js.hexdigit (b mod 16) :: Js.to_hex bs).
    cbn [forallb]. rewrite IH. unfold Js.hexdigit.
    assert (0 <= b / 16 < 16) by zdiv. assert (0 <= b mod 16 < 16) by zdiv.
    destruct (Z.ltb_spec (b / 16) 10); destruct (Z.ltb_spec (b mod 16) 10);
      zcases; reflexivity.
Qed.

End ApiKeysMore.

Section SigningExamples.
Import Hmac Json HmacHeaders Samples MoreSamples.



Lemma verify_ignores_text_after_signature_witness :
  verifyHmacSignature 1700000012345
    (createHmacSignature {| env := sample_envelope; secret := sample_secret |}
       ++ Js.lit "anything at all")
    sample_envelope sample_secret 30
  = {| valid := true; reason := None |}.
Proof.
  apply (verify_ignores_text_after_signature 1700000012345 sample_envelope sample_secret 30).
  vm_compute; discriminate.
Defined.

Lemma signed_headers_verify_witness :
  let h := createSignedHeaders 1700000000000 sample_config POST (Js.lit "/v1/orders")
                               JUndefined in
  X_Quantish_Key h = apiKey sample_config /\
  X_Quantish_Timestamp h = int_to_string 1700000000000 /\
  verifyHmacSignature 1700000029999 (X_Quantish_Signature h)
    {| method := POST; path := Js.lit "/v1/orders"; body := JUndefined;
       timestamp := 1700000000000 |} (apiSecret sample_config) 30
  = {| valid := true; reason := None |}.
Proof.
  apply (signed_headers_verify 1700000000000 1700000029999 sample_config POST
                               (Js.lit "/v1/orders") JUndefined 30).
  vm_compute; discriminate.
Defined.

Lemma generateApiSecret_shape_witness :
  length (generateApiSecret sample_random32) = 44%nat /\
  Base64.decode (generateApiSecret sample_random32) = sample_random32.
Proof.
  apply (generateApiSecret_shape sample_random32).
  - reflexivity.
  - apply wf_check. vm_compute. reflexivity.
Defined.

Lemma generateApiKey_injective_witness : sample_random24 = map Z.of_nat (seq 1 24).
Proof.
  apply (generateApiKey_injective default_prefix sample_random24 (map Z.of_nat (seq 1 24))).
  - apply wf_check. vm_compute. reflexivity.
  - apply wf_check. vm_compute. reflexivity.
  - reflexivity.
Defined.

Lemma keyPrefix_shows_six_bytes_witness :
  keyPrefix (generateApiKey (Js.lit "qnt") sample_random24)
  = Js.lit "qnt_" ++ Base64.encode_url (firstn 6 sample_random24).
Proof.
  apply (keyPrefix_shows_six_bytes sample_random24).
  vm_compute. repeat constructor.
Defined.

Example generateApiSecret_sample :
  generateApiSecret sample_random32 = Js.lit "BwgJCgsMDQ4PEBESExQVFhcYGRobHB0eHyAhIiMkJSY=".
Proof. vm_compute. reflexivity. Qed.

End SigningExamples.

Example sha512_abc :
  Js.to_hex (Sha512.sha512 (Js.lit "abc")) =
  Js.lit "ddaf35a193617abacc417349ae20413112e6fa4e89a97ea20a9eeee64b55d39a2192992a274fc1a836ba3c23a3feebbd454d4423643ce80e2a9ac94fa54ca49f".
Proof. vm_compute. reflexivity. Qed.

Example sha512_two_blocks :
  Js.to_hex (Sha512.sha512 (repeat 97 200)) = Js.lit "4b11459c33f52a22ee8236782714c150a3b2c60994e9acee17fe68947a3e6789f31e7668394592da7bef827cddca88c4e6f86e4df7ed1ae6cba71f3e98faee9f".
Proof. vm_compute. reflexivity. Qed.

Example hmac_sha512_fox :
  Js.to_hex (Sha512.hmac (Js.lit "key") (Js.lit "The quick brown fox jumps over the lazy dog")) =
  Js.lit "b42af09057bac1e2d41708e48a902e09b5ff7f12ab428a4fe86653c73dd248fb82f948a549f7b791a5b41915ee4d1ec3935357e4e2317250d0372afa2ebeeb3a".
Proof. vm_compute. reflexivity. Qed.

Example pbkdf2_sha512_three_rounds :
  Js.to_hex (Pbkdf2.pbkdf2_sha512 (Js.lit "password") (Js.lit "salt") 3 32) = Js.lit "b6b07cb2cebf4ad84468391a543824fccffe0e0769dbe6bddf10a65673c4b648".
Proof. vm_compute. reflexivity. Qed.

Example pbkdf2_sha512_two_blocks :
  Js.to_hex (Pbkdf2.pbkdf2_sha512 (Js.lit "password") (map Z.of_nat (seq 0 32)) 2 100) =
  Js.lit "98fb6b4f96b5cdf074e9f792715d16c2b7a04edff7d1a6e6a100d1a9e233aefd04e09d50c0d9ef2790aaadb773190a46e073e2f8a2f4c7475682f4e05f622d763165ba02f8fd12687a62a7f505227183195a4ce0fdde24a7377a6ba28e5bd45eeb909f9a".
Proof. vm_compute. reflexivity. Qed.

(* ================================================================== *)
(** ** More on the KeyVault (crypto/key-vault.ts) *)

Lemma base64_encode_injective (a b : Buf.bytes) :
  Buf.wf a -> Buf.wf b -> Base64.encode a = Base64.encode b -> a = b.
Proof.
  intros Ha Hb H. rewrite <- (base64_roundtrip a Ha), <- (base64_roundtrip b Hb).
  now rewrite H.
Qed.


Section KeyVaultTampering.
Import KeyVault.

Variables (v : t) (random_iv : Buf.bytes).
Hypothesis key_length : length (masterKey v) = 32%nat.
Hypothesis key_wf : Buf.wf (masterKey v).
Hypothesis iv_length : length random_iv = ivLength.
Hypothesis iv_wf : Buf.wf random_iv.


(** X10: the ciphertext is as long as the UTF-8 plaintext (nothing is
    padded), and the IV and the tag travel as 24 characters each. *)
Theorem encrypt_blob_lengths (plaintext : Js.jsstring) :
  exists blob,
    encrypt v random_iv plaintext = Ok blob /\
    length (encrypted blob) = (4 * ((length (Utf8.encode plaintext) + 2) / 3))%nat /\
    length (iv blob) = 24%nat /\
    length (authTag blob) = 24%nat.
Proof.
  eexists. split; [apply (encrypt_fields v random_iv key_length iv_length)|].
  cbn [encrypted iv authTag]. rewrite !base64_encode_length.
  unfold Gcm.encrypt, Gcm.tag. cbn [fst snd].
  rewrite gctr_length by (intros blk; apply cipher_length).
  rewrite be_length, iv_length. repeat split.
Qed.

End KeyVaultTampering.

Section KeyVaultIvs.
Import KeyVault.

(** X11: two different IVs never give the same blob. *)
Theorem encrypt_distinct_ivs (v : t) (iv1 iv2 : Buf.bytes) (plaintext : Js.jsstring) :
  length (masterKey v) = 32%nat ->
  length iv1 = ivLength -> Buf.wf iv1 ->
  length iv2 = ivLength -> Buf.wf iv2 ->
  iv1 <> iv2 ->
  encrypt v iv1 plaintext <> encrypt v iv2 plaintext.
Proof.
  intros Hk Hl1 Hw1 Hl2 Hw2 Hne.
  rewrite (encrypt_fields v iv1 Hk Hl1), (encrypt_fields v iv2 Hk Hl2).
  intros H.
  apply (f_equal (fun r => match r with Ok b => iv b | Err _ => [] end)) in H.
  cbn beta iota delta [iv] in H.
  apply Hne, base64_encode_injective; assumption.
Qed.

(** The hexadecimal form of any 32 bytes is accepted as a master key, and
    the vault then holds those bytes. *)
Lemma constructor_accepts_hex_of (bs : Buf.bytes) :
  Buf.wf bs -> length bs = 32%nat ->
  constructor (KeyString (Js.to_hex bs)) = Ok {| masterKey := bs |}.
Proof.
  intros Hwf Hlen. unfold constructor, parseKey, is_hex64.
  rewrite to_hex_length, Hlen, to_hex_digits by exact Hwf.
  cbn [Nat.mul Nat.add Nat.eqb negb andb bind].
  rewrite hex_roundtrip, Hlen by exact Hwf. reflexivity.
Qed.

(** X12: a key made by [generateMasterKey] is accepted by the constructor,
    which then holds the 32 bytes that were drawn. *)
Theorem generateMasterKey_accepted (random32 : Buf.bytes) :
  Buf.wf random32 -> length random32 = 32%nat ->
  length (KeyVaultStatic.generateMasterKey random32) = 64%nat /\
  constructor (KeyString (KeyVaultStatic.generateMasterKey random32))
  = Ok {| masterKey := random32 |}.
Proof.
  intros Hwf Hlen. unfold KeyVaultStatic.generateMasterKey. split.
  - now rewrite to_hex_length, Hlen.
  - now apply constructor_accepts_hex_of.
Qed.

End KeyVaultIvs.

Section Sha512Shape.
Import Sha512.

Lemma step512_length (s : list Z) (kw : Z * Z) : length (step s kw) = length s.
Proof.
  destruct s as [|a [|b [|c [|d [|e [|f [|g [|h [|i r]]]]]]]]]; reflexivity.
Qed.

Lemma steps512_length (l : list (Z * Z)) (s : list Z) :
  length (fold_left step l s) = length s.
Proof.
  revert s. induction l as [|kw l IH]; intros s; cbn [fold_left]; [reflexivity|].
  now rewrite IH, step512_length.
Qed.

Lemma compress512_length (h : list Z) (blk : Buf.bytes) : length (compress h blk) = length h.
Proof.
  unfold compress. rewrite length_map, length_combine, steps512_length. apply Nat.min_id.
Qed.

Lemma compress512_all_length (blocks : list Buf.bytes) (h : list Z) :
  length (fold_left compress blocks h) = length h.
Proof.
  revert h. induction blocks as [|blk blocks IH]; intros h; cbn [fold_left]; [reflexivity|].
  now rewrite IH, compress512_length.
Qed.

Lemma sha512_length (msg : Buf.bytes) : length (sha512 msg) = 64%nat.
Proof.
  unfold sha512.
  rewrite (flat_map_length_const (Buf.be 8) _ 8) by (intros x; apply be_length).
  now rewrite compress512_all_length.
Qed.

Lemma sha512_wf (msg : Buf.bytes) : Buf.wf (sha512 msg).
Proof.
  unfold sha512. apply Forall_flat_map, Forall_forall. intros x _. apply be_wf.
Qed.

Lemma hmac512_length (key msg : Buf.bytes) : length (hmac key msg) = 64%nat.
Proof. unfold hmac. apply sha512_length. Qed.

Lemma hmac512_wf (key msg : Buf.bytes) : Buf.wf (hmac key msg).
Proof. unfold hmac. apply sha512_wf. Qed.

End Sha512Shape.

Section Pbkdf2Shape.
Import Pbkdf2.

Variable prf : Buf.bytes -> Buf.bytes -> Buf.bytes.
Variable hlen : nat.
Hypothesis prf_length : forall k m, length (prf k m) = hlen.
Hypothesis prf_wf : forall k m, Buf.wf (prf k m).

Lemma block_shape (password salt : Buf.bytes) (iterations : positive) (i : Z) :
  length (block prf password salt iterations i) = hlen /\
  Buf.wf (block prf password salt iterations i).
Proof.
  unfold block.
  apply (N.iter_invariant (Pos.pred_N iterations) (Buf.bytes * Buf.bytes)%type _
           (fun ut => length (snd ut) = hlen /\ Buf.wf (snd ut))).
  - intros [u t] [Hl Hw]. cbn [fst snd] in *. split.
    + rewrite xor_length, Hl, prf_length. apply Nat.min_id.
    + apply xor_wf; [exact Hw | apply prf_wf].
  - cbn [snd]. split; [apply prf_length | apply prf_wf].
Qed.

End Pbkdf2Shape.

Lemma pbkdf2_sha512_32 (password salt : Buf.bytes) (iterations : positive) :
  length (Pbkdf2.pbkdf2_sha512 password salt iterations 32) = 32%nat /\
  Buf.wf (Pbkdf2.pbkdf2_sha512 password salt iterations 32).
Proof.
  unfold Pbkdf2.pbkdf2_sha512, Pbkdf2.derive.
  change ((32 + 64 - 1) / 64)%nat with 1%nat. cbn [seq flat_map]. rewrite app_nil_r.
  destruct (block_shape Sha512.hmac 64 hmac512_length hmac512_wf
                        password salt iterations (Z.of_nat 1)) as [Hl Hw].
  split; [rewrite length_firstn, Hl; reflexivity | apply firstn_wf, Hw].
Qed.

Section DerivedKeys.
Import KeyVault KeyVaultStatic.

(** X13: whatever the password and the salt, the derived key is 64
    hexadecimal digits that the constructor accepts as a master key. *)
Theorem derived_key_accepted (password : Js.jsstring) (salt : option Js.jsstring)
        (random32 : Buf.bytes) :
  length (key (deriveKeyFromPassword password salt random32)) = 64%nat /\
  exists v,
    constructor (KeyString (key (deriveKeyFromPassword password salt random32))) = Ok v
    /\ Js.to_hex (masterKey v) = key (deriveKeyFromPassword password salt random32).
Proof.
  unfold deriveKeyFromPassword. cbn [key].
  set (actualSalt := match salt with
                     | Some (c :: s) => Js.from_hex (c :: s)
                     | _ => random32
                     end).
  destruct (pbkdf2_sha512_32 (Utf8.encode password) actualSalt 100000) as [Hl Hw].
  split; [now rewrite to_hex_length, Hl|].
  eexists. split; [apply constructor_accepts_hex_of; assumption | reflexivity].
Qed.

(** X14: deriving again with the salt a first derivation returned gives the
    same key and the same salt, whatever random bytes the second call would
    draw. *)
Theorem derive_again_with_returned_salt (password : Js.jsstring)
        (random32 random32' : Buf.bytes) :
  Buf.wf random32 -> length random32 = 32%nat ->
  let first := deriveKeyFromPassword password None random32 in
  deriveKeyFromPassword password (Some (salt first)) random32' = first.
Proof.
  intros Hwf Hlen first. unfold first, deriveKeyFromPassword. cbn [salt].
  destruct (Js.to_hex random32) as [|c s] eqn:E.
  - apply (f_equal (@length Z)) in E. rewrite to_hex_length, Hlen in E. discriminate.
  - rewrite <- E, hex_roundtrip by exact Hwf. reflexivity.
Qed.

End DerivedKeys.

Section KeyVaultMoreExamples.
Import KeyVault KeyVaultStatic Samples MoreSamples.

Lemma sample_vault_wf : Buf.wf (masterKey sample_vault).
Proof. apply wf_check. vm_compute. reflexivity. Qed.

Lemma sample_iv_wf : Buf.wf sample_iv.
Proof. apply wf_check. vm_compute. reflexivity. Qed.

Lemma sample_random32_wf : Buf.wf sample_random32.
Proof. apply wf_check. vm_compute. reflexivity. Qed.


Lemma encrypt_blob_lengths_witness :
  exists blob,
    encrypt sample_vault sample_iv sample_plaintext = Ok blob /\
    length (encrypted blob) = (4 * ((length (Utf8.encode sample_plaintext) + 2) / 3))%nat /\
    length (iv blob) = 24%nat /\
    length (authTag blob) = 24%nat.
Proof.
  apply (encrypt_blob_lengths sample_vault sample_iv); reflexivity.
Defined.

Lemma encrypt_distinct_ivs_witness :
  encrypt sample_vault sample_iv sample_plaintext
  <> encrypt sample_vault (Buf.zeros 16) sample_plaintext.
Proof.
  apply (encrypt_distinct_ivs sample_vault sample_iv (Buf.zeros 16)).
  - reflexivity.
  - reflexivity.
  - exact sample_iv_wf.
  - reflexivity.
  - apply wf_check. vm_compute. reflexivity.
  - vm_compute. discriminate.
Defined.

Lemma generateMasterKey_accepted_witness :
  length (generateMasterKey sample_random32) = 64%nat /\
  constructor (KeyString (generateMasterKey sample_random32))
  = Ok {| masterKey := sample_random32 |}.
Proof.
  apply (generateMasterKey_accepted sample_random32); [exact sample_random32_wf | reflexivity].
Defined.

Lemma derive_again_with_returned_salt_witness :
  let first := deriveKeyFromPassword (Js.lit "correct horse") None sample_random32 in
  deriveKeyFromPassword (Js.lit "correct horse") (Some (salt first)) (Buf.zeros 32) = first.
Proof.
  apply (derive_again_with_returned_salt (Js.lit "correct horse") sample_random32
                                         (Buf.zeros 32)).
  - exact sample_random32_wf.
  - reflexivity.
Defined.

Lemma constructor_key_length_witness : length (masterKey sample_vault) = 32%nat.
Proof.
  apply (constructor_key_length (KeyBuffer (map Z.of_nat (seq 0 32))) sample_vault).
  vm_compute. reflexivity.
Defined.

End KeyVaultMoreExamples.

(* ================================================================== *)
(** ** More on the Safe address routines (wallet/) *)

Lemma le_wf (n : nat) (z : Z) : Buf.wf (Buf.le n z).
Proof.
  revert z; induction n as [|n IH]; intros z; cbn [Buf.le]; constructor; [|apply IH].
  unfold Buf.is_byte. apply Z.mod_pos_bound. lia.
Qed.

Lemma keccak256_wf (msg : Buf.bytes) : Buf.wf (Keccak.keccak256 msg).
Proof.
  unfold Keccak.keccak256, Keccak.sponge256. apply firstn_wf.
  apply Forall_flat_map, Forall_forall. intros x _. apply le_wf.
Qed.

Section ChecksumForm.
Import Ethers.

Lemma unhex_either_case (d flag : Z) :
  0 <= d < 16 ->
  Js.unhex (if 56 <=? flag then upper (Js.hexdigit d) else Js.hexdigit d) = Some d.
Proof.
  intros H.
  assert (Hu : Js.unhex (upper (Js.hexdigit d)) = Some d).
  { unfold Js.hexdigit. destruct (Z.ltb_spec d 10).
    - replace (upper (48 + d)) with (48 + d) by (unfold upper; zcases; reflexivity).
      unfold Js.unhex; zcases; f_equal; lia.
    - replace (upper (87 + d)) with (55 + d) by (unfold upper; zcases; lia).
      unfold Js.unhex; zcases; f_equal; lia. }
  destruct (56 <=? flag); [exact Hu | apply hexdigit_unhex; exact H].
Qed.

(** Changing the case of hexadecimal digits does not change the bytes they
    denote. *)
Lemma from_hex_mixed_case (addr : Buf.bytes) :
  Buf.wf addr ->
  forall flags : Js.jsstring, (2 * length addr <= length flags)%nat ->
    Js.from_hex (map (fun p => if 56 <=? snd p then upper (fst p) else fst p)
                     (combine (Js.to_hex addr) flags)) = addr.
Proof.
  induction 1 as [|b addr Hb Haddr IH]; intros flags Hlen; [reflexivity|].
  unfold Buf.is_byte in Hb.
  destruct flags as [|f1 [|f2 flags]]; cbn [length] in Hlen; try lia.
  change (Js.to_hex (b :: addr))
    with (Js.hexdigit (b / 16) :: Js.hexdigit (b mod 16) :: Js.to_hex addr).
  cbn [combine map fst snd Js.from_hex].
  rewrite !unhex_either_case by zdiv.
  rewrite IH by lia. f_equal. zdiv.
Qed.

Lemma checksum_form (addr : Buf.bytes) :
  Buf.wf addr -> length addr = 20%nat ->
  length (checksum addr) = 42%nat /\
  firstn 2 (checksum addr) = Js.lit "0x" /\
  Js.from_hex (skipn 2 (checksum addr)) = addr.
Proof.
  intros Hwf Hlen. unfold checksum.
  change (Js.lit "0x") with [48; 120]. cbn [app firstn skipn length].
  split; [|split; [reflexivity|]].
  - rewrite length_map, length_combine, !to_hex_length, keccak256_length, Hlen. reflexivity.
  - apply from_hex_mixed_case; [exact Hwf|].
    rewrite to_hex_length, keccak256_length, Hlen. cbn. lia.
Qed.

Lemma getCreate2Address_form (from : Z) (salt h : Buf.bytes) (r : Js.jsstring) :
  getCreate2Address from salt h = Some r ->
  exists addr, Buf.wf addr /\ length addr = 20%nat /\ r = checksum addr.
Proof.
  unfold getCreate2Address.
  destruct (negb (Nat.eqb (length salt) 32)); [discriminate|].
  destruct (negb (Nat.eqb (length h) 32)); [discriminate|].
  destruct (getAddress from) as [f|]; [|discriminate].
  intros H.
  exists (skipn 12 (Keccak.keccak256 ([0xff] ++ f ++ salt ++ h))).
  split; [apply skipn_wf, keccak256_wf|].
  split; [now rewrite length_skipn, keccak256_length|].
  injection H as H. symmetry. exact H.
Qed.

End ChecksumForm.

Section SafeAddressMore.
Import Ethers Wallet.

Local Abbreviation setup_args owner :=
  [ AArray [AAddress owner]; ANumber 1; AAddress AddressZero; AData [];
    AAddress AddressZero; AAddress AddressZero; ANumber 0; AAddress AddressZero ].

(** X15: on addresses, [predictSafeAddress] follows the same derivation as
    [calculateSafeAddress] but for one step: its salt is taken over the
    ABI-encoded [setup] arguments alone, without the four selector bytes. *)
Theorem predictSafeAddress_derivation (eoaAddress safeProxyFactory safeSingleton : Z) :
  valid_address eoaAddress = true ->
  valid_address safeProxyFactory = true ->
  0 <= safeSingleton < 2 ^ 256 ->
  predictSafeAddress eoaAddress safeProxyFactory safeSingleton
  = Some (checksum
            (SafeSpec.create2 safeProxyFactory
               (Keccak.keccak256
                  (Keccak.keccak256 (skipn 4 (SafeSpec.setupCalldata eoaAddress))
                     ++ SafeSpec.word 0))
               (Keccak.keccak256 (SafeSpec.initCode safeSingleton)))).
Proof.
  intros Ho Hf Hs. unfold predictSafeAddress.
  pose proof (encode_setup_args eoaAddress Ho) as He.
  unfold setup_fragment, inputs in He. rewrite He.
  rewrite pack_hash_nonce by apply keccak256_length.
  rewrite (pack_code_singleton proxyBytecode safeSingleton Hs).
  rewrite getCreate2Address_spec by (assumption || apply keccak256_length).
  unfold SafeSpec.initCode, SafeSpec.setupCalldata, SafeSpec.setup_selector.
  reflexivity.
Qed.

(** X16: whatever either routine returns is "0x" and 40 hexadecimal digits,
    42 characters, and read without regard to case the digits are a 20-byte
    address. *)
Theorem safe_address_form (owner factory singleton : Z) (r : Js.jsstring) :
  predictSafeAddress owner factory singleton = Some r
  \/ calculateSafeAddress owner factory singleton = Some r ->
  length r = 42%nat /\
  firstn 2 r = Js.lit "0x" /\
  length (Js.from_hex (skipn 2 r)) = 20%nat.
Proof.
  intros H.
  assert (Hc : exists from salt h, getCreate2Address from salt h = Some r).
  { destruct H as [H | H].
    - unfold predictSafeAddress in H.
      destruct (encode _ _); [|discriminate].
      destruct (solidityPack [PBytes32; PUint256] _); [|discriminate].
      destruct (solidityPack [PBytes; PUint256] _); [|discriminate]. eauto.
    - unfold calculateSafeAddress in H.
      destruct (encodeFunctionData _ _); [|discriminate].
      destruct (solidityPack [PBytes32; PUint256] _); [|discriminate].
      destruct (solidityPack [PBytes; PUint256] _); [|discriminate]. eauto. }
  destruct Hc as (from & salt & h & Hc).
  destruct (getCreate2Address_form from salt h r Hc) as (addr & Hwf & Hlen & ->).
  destruct (checksum_form addr Hwf Hlen) as (H1 & H2 & H3).
  rewrite H3. auto.
Qed.




End SafeAddressMore.

(* ================================================================== *)
(** ** Transaction signing (wallet/safe-deployer.ts) *)

Lemma app_same_length {A} (a a' b b' : list A) :
  length a = length a' -> a ++ b = a' ++ b' -> a = a' /\ b = b'.
Proof.
  revert a'. induction a as [|x a IH]; intros [|x' a'] Hl H; try discriminate Hl.
  - auto.
  - cbn [app] in H. injection H as -> H. cbn [length] in Hl.
    destruct (IH a' ltac:(lia) H) as [-> ->]. auto.
Qed.

Section PackedMessages.
Import EthersSign SafeDeployer.

Lemma solidityPack_4 (t1 t2 t3 t4 : PackedType) (v1 v2 v3 v4 : Js.jsstring) :
  solidityPack [t1; t2; t3; t4] [v1; v2; v3; v4]
  = match pack1 t1 v1, pack1 t2 v2, pack1 t3 v3, pack1 t4 v4 with
    | Some a, Some b, Some c, Some d => Some (a ++ b ++ c ++ d)
    | _, _, _, _ => None
    end.
Proof.
  unfold solidityPack. cbn [length Nat.eqb map combine fst snd Ethers.sequence].
  destruct (pack1 t1 v1), (pack1 t2 v2), (pack1 t3 v3), (pack1 t4 v4);
    cbn [option_map Ethers.sequence concat]; try reflexivity.
  now rewrite app_nil_r.
Qed.

Lemma signMessage_of_hash (signer : Signer) (m : Buf.bytes) :
  signMessage signer (Keccak.keccak256 m)
  = signDigest signer (signed_digest (Keccak.keccak256 m)).
Proof.
  unfold signMessage, hashMessage, signed_digest. rewrite keccak256_length.
  replace (Utf8.encode messagePrefix)
    with ([0x19] ++ Js.lit "Ethereum Signed Message:" ++ [10]) by (vm_compute; reflexivity).
  replace (Utf8.encode (Json.int_to_string (Z.of_nat 32))) with (Js.lit "32")
    by (vm_compute; reflexivity).
  now rewrite <- !app_assoc.
Qed.

(** X18: [buildSafeTransaction] copies its arguments into the transaction
    and signs the personal-message digest of keccak256("SAFE-TX" ++ safe ++
    to ++ data), the three read as hex data; it throws exactly when one of
    them is not hex data. *)
Theorem buildSafeTransaction_result (signer : Signer) (safeAddress to data : Js.jsstring) :
  buildSafeTransaction signer safeAddress to data
  = match arrayify safeAddress, arrayify to, arrayify data with
    | Some s, Some t, Some d =>
        Some {| from := address signer;
                SafeDeployer.to := to;
                proxyWallet := safeAddress;
                SafeDeployer.data := data;
                signature :=
                  signDigest signer
                    (signed_digest (Keccak.keccak256 (Js.lit "SAFE-TX" ++ s ++ t ++ d))) |}
    | _, _, _ => None
    end.
Proof.
  unfold buildSafeTransaction, solidityKeccak256. rewrite solidityPack_4.
  cbn [pack1].
  replace (Utf8.encode (Js.lit "SAFE-TX")) with (Js.lit "SAFE-TX") by (vm_compute; reflexivity).
  destruct (arrayify safeAddress), (arrayify to), (arrayify data);
    cbn [option_map]; try reflexivity.
  now rewrite signMessage_of_hash.
Qed.

(** X19: between 20-byte addresses, the packed "SAFE-TX" message determines
    the Safe, the target and the call data it was made from. *)
Theorem safe_tx_message_injective (safe to data safe' to' data' : Js.jsstring)
        (s t s' t' : Buf.bytes) (m : Buf.bytes) :
  arrayify safe = Some s -> arrayify to = Some t ->
  arrayify safe' = Some s' -> arrayify to' = Some t' ->
  length s = 20%nat -> length t = 20%nat -> length s' = 20%nat -> length t' = 20%nat ->
  solidityPack [PkString; PkAddress; PkAddress; PkBytes] [Js.lit "SAFE-TX"; safe; to; data]
    = Some m ->
  solidityPack [PkString; PkAddress; PkAddress; PkBytes] [Js.lit "SAFE-TX"; safe'; to'; data']
    = Some m ->
  s = s' /\ t = t' /\ arrayify data = arrayify data'.
Proof.
  intros Hs Ht Hs' Ht' Ls Lt Ls' Lt'. rewrite !solidityPack_4. cbn [pack1].
  rewrite Hs, Ht, Hs', Ht'.
  destruct (arrayify data) as [d|]; [|discriminate].
  destruct (arrayify data') as [d'|]; [|discriminate].
  intros H1 H2. rewrite <- H2 in H1. injection H1 as H1.
  apply app_same_length in H1 as [-> H1]; [|congruence].
  apply app_same_length in H1 as [-> ->]; [|congruence].
  auto.
Qed.

(** X20: a deployment message and a transaction message are never the same
    bytes: they part at the sixth character. *)
Theorem deployment_and_transaction_messages_differ
        (owner factory wallet safe to data : Js.jsstring) (m m' : Buf.bytes) :
  solidityPack [PkString; PkAddress; PkAddress; PkAddress]
               [Js.lit "SAFE-CREATE"; owner; factory; wallet] = Some m ->
  solidityPack [PkString; PkAddress; PkAddress; PkBytes]
               [Js.lit "SAFE-TX"; safe; to; data] = Some m' ->
  m <> m'.
Proof.
  rewrite !solidityPack_4. cbn [pack1].
  replace (Utf8.encode (Js.lit "SAFE-CREATE")) with (Js.lit "SAFE-CREATE")
    by (vm_compute; reflexivity).
  replace (Utf8.encode (Js.lit "SAFE-TX")) with (Js.lit "SAFE-TX") by (vm_compute; reflexivity).
  destruct (arrayify owner), (arrayify factory), (arrayify wallet); try discriminate.
  destruct (arrayify safe), (arrayify to), (arrayify data); try discriminate.
  intros H1 H2. injection H1 as <-. injection H2 as <-.
  cbn [Js.lit app]. intros H. injection H as H. vm_compute in H. discriminate.
Qed.

(** X21: [createSafeDeploymentSignature] signs the personal-message digest
    of keccak256("SAFE-CREATE" ++ signer ++ factory ++ wallet), the three
    read as hex data, and throws when one of them is not hex data. *)
Theorem createSafeDeploymentSignature_result (signer : Signer)
        (proxyFactory proxyWallet : Js.jsstring) :
  createSafeDeploymentSignature signer proxyFactory proxyWallet
  = match arrayify (address signer), arrayify proxyFactory, arrayify proxyWallet with
    | Some a, Some f, Some w =>
        Some (signDigest signer
                (signed_digest (Keccak.keccak256 (Js.lit "SAFE-CREATE" ++ a ++ f ++ w))))
    | _, _, _ => None
    end.
Proof.
  unfold createSafeDeploymentSignature, solidityKeccak256. rewrite solidityPack_4.
  cbn [pack1].
  replace (Utf8.encode (Js.lit "SAFE-CREATE")) with (Js.lit "SAFE-CREATE")
    by (vm_compute; reflexivity).
  destruct (arrayify (address signer)), (arrayify proxyFactory), (arrayify proxyWallet);
    cbn [option_map]; try reflexivity.
  now rewrite signMessage_of_hash.
Qed.

End PackedMessages.

Section Approvals.
Import Ethers EthersSign SafeDeployer.

Lemma arrayify_hexlify (b : Buf.bytes) : Buf.wf b -> arrayify (hexlify b) = Some b.
Proof.
  intros H. unfold hexlify, arrayify. change (Js.lit "0x") with [48; 120]. cbn [app].
  rewrite to_hex_digits, to_hex_length, hex_roundtrip by exact H.
  replace (Nat.even (2 * length b)) with true; [reflexivity|].
  symmetry. apply Nat.even_spec. exists (length b). reflexivity.
Qed.

(** The call data of [approve(spender, 2^256 - 1)]. *)
Lemma approve_calldata (spender : Z) :
  valid_address spender = true ->
  encodeFunctionData approve_fragment [AAddress spender; ANumber MaxUint256]
  = Some (approve_data spender).
Proof.
  intros Hv. unfold encodeFunctionData, encode, approve_fragment, inputs, approve_data.
  cbn [length Nat.eqb map combine fst snd encode1 sequence option_map is_dynamic].
  rewrite (getAddress_valid spender Hv).
  unfold SafeSpec.word.
  change (Buf.be 32 spender) with (Buf.be (12 + 20) spender).
  rewrite (be_zero_fill 12 20 spender (valid_address_range spender Hv)).
  pose proof (be_length 20 spender) as Hlen.
  destruct (Buf.be 20 spender) as [|w1 [|w2 [|w3 [|w4 [|w5 [|w6 [|w7 [|w8 [|w9 [|w10
    [|w11 [|w12 [|w13 [|w14 [|w15 [|w16 [|w17 [|w18 [|w19 [|w20 [|? ?]]]]]]]]]]]]]]]]]]]]];
    try discriminate Hlen.
  vm_compute. reflexivity.
Qed.

Lemma approve_data_wf (spender : Z) : Buf.wf (approve_data spender).
Proof.
  unfold approve_data. apply Forall_app. split; [apply wf_check; reflexivity|].
  apply Forall_app. split; [apply be_wf | apply wf_check; reflexivity].
Qed.

(** X22: with both contracts given, the USDC approval is the signature of
    the Safe transaction to the USDC contract carrying [approve(ctfExchange,
    2^256 - 1)], and it is the only entry. *)
Theorem approval_is_signed_approve_transaction (signer : Signer) (safeAddress : Js.jsstring)
        (contracts : Contracts) (token : Js.jsstring) (spender : Z) :
  usdc contracts = Some token -> ctfExchange contracts = Some spender ->
  valid_address spender = true ->
  createApprovalSignatures signer safeAddress contracts
  = option_map
      (fun tx => {| usdcApproval := Some (signature tx);
                    ctfApproval := None;
                    conditionalTokensApproval := None |})
      (buildSafeTransaction signer safeAddress token (hexlify (approve_data spender))).
Proof.
  intros Hu Hc Hv. unfold createApprovalSignatures, buildSafeTransaction.
  rewrite Hu, Hc, (approve_calldata spender Hv). cbn [option_map].
  destruct (solidityKeccak256 _ _); reflexivity.
Qed.

(** X23: whatever the contracts, the result never has a [ctfApproval] or a
    [conditionalTokensApproval]; and without a USDC contract or without an
    exchange it has no entry at all. *)
Theorem approvals_only_for_usdc (signer : Signer) (safeAddress : Js.jsstring)
        (contracts : Contracts) (r : ApprovalSignatures) :
  createApprovalSignatures signer safeAddress contracts = Some r ->
  ctfApproval r = None /\ conditionalTokensApproval r = None /\
  (usdc contracts = None \/ ctfExchange contracts = None -> usdcApproval r = None).
Proof.
  unfold createApprovalSignatures.
  destruct (usdc contracts) as [u|], (ctfExchange contracts) as [c|].
  - destruct (option_map hexlify _) as [d|]; [|discriminate].
    destruct (solidityKeccak256 _ _); [|discriminate].
    intros H. injection H as <-. cbn. repeat split. intros [H | H]; discriminate.
  - intros H. injection H as <-. cbn. auto.
  - intros H. injection H as <-. cbn. auto.
  - intros H. injection H as <-. cbn. auto.
Qed.

End Approvals.

(* ================================================================== *)
(** ** Wallet generation and recovery (wallet/key-generator.ts) *)

Lemma ascii_well_formed (s : Js.jsstring) :
  Forall (fun c => 0 <= c < 128) s -> Utf8.well_formed s = true.
Proof.
  induction 1 as [|c s Hc Hs IH]; [reflexivity|].
  cbn [Utf8.well_formed]. unfold Utf8.is_high, Utf8.is_low.
  destruct (Z.leb_spec 0 c); [|lia]. destruct (Z.ltb_spec c 65536); [|lia].
  cbn [andb negb].
  destruct (Z.leb_spec 0xD800 c); [lia|]. destruct (Z.leb_spec 0xDC00 c); [lia|].
  cbn [andb negb]. exact IH.
Qed.

Lemma to_hex_ascii (bs : Buf.bytes) :
  Buf.wf bs -> Forall (fun c => 0 <= c < 128) (Js.to_hex bs).
Proof.
  induction 1 as [|b bs Hb Hbs IH]; [constructor|].
  unfold Buf.is_byte in Hb.
  change (Js.to_hex (b :: bs))
    with (Js.hexdigit (b / 16) :: Js.hexdigit (b mod 16) :: Js.to_hex bs).
  assert (0 <= b / 16 < 16) by zdiv. assert (0 <= b mod 16 < 16) by zdiv.
  constructor; [|constructor; [|exact IH]]; unfold Js.hexdigit;
    match goal with |- context [?d <? 10] => destruct (Z.ltb_spec d 10) end; lia.
Qed.

(** A hex string ("0x" and hexadecimal digits) is well-formed text. *)
Lemma hex_string_well_formed (bs : Buf.bytes) :
  Buf.wf bs -> Utf8.well_formed (Js.lit "0x" ++ Js.to_hex bs) = true.
Proof.
  intros H. apply ascii_well_formed. change (Js.lit "0x") with [48; 120]. cbn [app].
  constructor; [lia|]. constructor; [lia|]. apply to_hex_ascii, H.
Qed.

Section WalletRoundTrip.
Import KeyVault KeyGenerator.

Variables (v : KeyVault.t) (random_iv : Buf.bytes).
Hypothesis key_length : length (masterKey v) = 32%nat.
Hypothesis key_wf : Buf.wf (masterKey v).
Hypothesis iv_length : length random_iv = ivLength.
Hypothesis iv_wf : Buf.wf random_iv.

(** [decrypt] undoes [encrypt] on well-formed text. *)
Lemma decrypt_after_encrypt (plaintext : Js.jsstring) (blob : EncryptedData) :
  Utf8.well_formed plaintext = true ->
  encrypt v random_iv plaintext = Ok blob -> decrypt v blob = Ok plaintext.
Proof.
  intros Hwf Henc.
  rewrite (encrypt_fields v random_iv key_length iv_length plaintext) in Henc.
  apply (f_equal (fun r => match r with Ok b => b | Err _ => blob end)) in Henc.
  cbn beta iota in Henc. subst blob.
  destruct (gcm_encrypt_shape (masterKey v) random_iv (Utf8.encode plaintext)
              key_wf (utf8_encode_wf plaintext Hwf)) as (Hc & Htag & Htaglen).
  unfold decrypt. cbn [iv authTag encrypted].
  rewrite !base64_roundtrip by assumption.
  rewrite (check_key_iv_ok v random_iv key_length iv_length). cbn [bind].
  rewrite Htaglen. cbn [authTagLength Nat.eqb negb].
  rewrite gcm_roundtrip. now rewrite utf8_roundtrip.
Qed.

(** X24: a wallet whose private key is a hex string is generated, and
    recovered from its encrypted key under the same vault as the same wallet
    with the same address. *)
Theorem recover_generated_wallet (new_Wallet : Js.jsstring -> Result EthWallet)
        (created : EthWallet) (key_bytes : Buf.bytes) :
  Buf.wf key_bytes ->
  privateKey created = Js.lit "0x" ++ Js.to_hex key_bytes ->
  new_Wallet (privateKey created) = Ok created ->
  exists g,
    generateWallet v created random_iv = Ok g /\
    generated_address g = address created /\
    recoverWallet new_Wallet v (encryptedKey g)
    = Ok {| wallet := created; recovered_address := generated_address g |}.
Proof.
  intros Hk Hpk Hnew. unfold generateWallet, recoverWallet.
  assert (Hwf : Utf8.well_formed (privateKey created) = true)
    by (rewrite Hpk; apply hex_string_well_formed, Hk).
  destruct (encrypt v random_iv (privateKey created)) as [blob | message] eqn:He.
  2: { rewrite (encrypt_fields v random_iv key_length iv_length) in He. discriminate. }
  cbn [bind]. eexists. split; [reflexivity|]. split; [reflexivity|].
  cbn [encryptedKey generated_address].
  rewrite (decrypt_after_encrypt (privateKey created) blob Hwf He).
  cbn [bind]. now rewrite Hnew.
Qed.

End WalletRoundTrip.

(* ================================================================== *)
(** ** More on the relayer client (relayer/client.ts) *)

Section RelayMore.
Import Json Relayer SafeDeployer RelayerClient.

(** X25: [relay] reports a success exactly for a 2xx response whose body
    parses as JSON to anything but [null]: an object without a hash, a
    number, a string or an array all count. *)
Theorem relay_success_iff (fetched : Completion Response) :
  exists r, relay fetched = Return r /\
    (success r = true
     <-> exists resp result,
           fetched = Return resp /\ ok resp = true /\ json resp = Return result /\
           result <> JNull /\ result <> JUndefined).
Proof.
  unfold relay, try_catch, bind.
  destruct fetched as [resp | e].
  2: { eexists; split; [reflexivity|]. cbn. split; [discriminate|].
       intros (resp & result & H & _). discriminate. }
  destruct (ok resp) eqn:Hok; cbn [negb].
  2: { destruct (text resp); (eexists; split; [reflexivity|]); cbn;
       (split; [discriminate|]); intros (resp' & result & H & Hok' & _);
       injection H as <-; congruence. }
  destruct (json resp) as [result | e] eqn:Hjson.
  2: { eexists; split; [reflexivity|]. cbn. split; [discriminate|].
       intros (resp' & result & H & _ & Hj & _). injection H as <-. congruence. }
  destruct result as [ | | b | n | s | items | props ] eqn:Hres; cbn [get].
  1,2: eexists; split; [reflexivity|]; cbn; split; [discriminate|];
    intros (resp' & result' & H & _ & Hj & Hn1 & Hn2); injection H as <-;
    rewrite Hjson in Hj; injection Hj as <-; contradiction.
  all: try (cbn [truthy]; eexists; split; [reflexivity|]; cbn; split; [intros _|reflexivity];
            exists resp; eexists; repeat split; try eassumption; discriminate).
  destruct (truthy (lookup (Js.lit "txHash") props));
    (eexists; split; [reflexivity|]); cbn; (split; [intros _|reflexivity]);
    exists resp; eexists; repeat split; try eassumption; discriminate.
Qed.

(** X26: executing with the parts of a built transaction relays that very
    transaction, and like [relay] neither call ever throws. *)
Theorem executeTransaction_of_built (fetch : Request -> Completion Response)
        (client : Client) (signer : EthersSign.Signer) (safeAddress to data : Js.jsstring)
        (tx : SafeTransaction) :
  buildSafeTransaction signer safeAddress to data = Some tx ->
  executeTransaction fetch client
    {| exec_safeAddress := safeAddress; exec_to := to; exec_data := data;
       exec_ownerAddress := EthersSign.address signer;
       exec_signature := signature tx |}
  = relay_with fetch client tx
  /\ exists r, relay_with fetch client tx = Return r.
Proof.
  intros Hb. unfold buildSafeTransaction in Hb.
  destruct (EthersSign.solidityKeccak256 _ _); [|discriminate].
  injection Hb as <-. split; [reflexivity|]. apply relay_returns.
Qed.

End RelayMore.

Section MoreExamples.
Import Ethers EthersSign Wallet SafeDeployer KeyVault KeyGenerator Relayer RelayerClient.
Import Samples MoreSamples.

Lemma predictSafeAddress_derivation_witness :
  predictSafeAddress sample_owner POLYGON_safeProxyFactory POLYGON_safeSingleton
  = Some (checksum
            (SafeSpec.create2 POLYGON_safeProxyFactory
               (Keccak.keccak256
                  (Keccak.keccak256 (skipn 4 (SafeSpec.setupCalldata sample_owner))
                     ++ SafeSpec.word 0))
               (Keccak.keccak256 (SafeSpec.initCode POLYGON_safeSingleton)))).
Proof.
  apply (predictSafeAddress_derivation sample_owner POLYGON_safeProxyFactory
                                       POLYGON_safeSingleton).
  - vm_compute; reflexivity.
  - vm_compute; reflexivity.
  - vm_compute; split; [discriminate | reflexivity].
Defined.

Lemma safe_address_form_witness :
  length (Js.lit "0x1Ee4A44990A7047fCc1f2f068c865818F6B91571") = 42%nat /\
  firstn 2 (Js.lit "0x1Ee4A44990A7047fCc1f2f068c865818F6B91571") = Js.lit "0x" /\
  length (Js.from_hex (skipn 2 (Js.lit "0x1Ee4A44990A7047fCc1f2f068c865818F6B91571")))
  = 20%nat.
Proof.
  apply (safe_address_form sample_owner POLYGON_safeProxyFactory POLYGON_safeSingleton).
  right. vm_compute. reflexivity.
Defined.


Lemma safe_tx_message_injective_witness :
  Js.from_hex (skipn 2 sample_safe) = Js.from_hex (skipn 2 sample_safe) /\
  Js.from_hex (skipn 2 sample_token) = Js.from_hex (skipn 2 sample_token) /\
  arrayify sample_calldata = arrayify sample_calldata.
Proof.
  apply (safe_tx_message_injective
           sample_safe sample_token sample_calldata sample_safe sample_token sample_calldata
           _ _ _ _
           (Js.lit "SAFE-TX" ++ Js.from_hex (skipn 2 sample_safe)
              ++ Js.from_hex (skipn 2 sample_token) ++ Js.from_hex (skipn 2 sample_calldata)));
    vm_compute; reflexivity.
Defined.

Lemma deployment_and_transaction_messages_differ_witness :
  Js.lit "SAFE-CREATE" ++ Js.from_hex (skipn 2 (EthersSign.address sample_signer))
    ++ Js.from_hex (skipn 2 sample_token) ++ Js.from_hex (skipn 2 sample_safe)
  <> Js.lit "SAFE-TX" ++ Js.from_hex (skipn 2 sample_safe)
       ++ Js.from_hex (skipn 2 sample_token) ++ Js.from_hex (skipn 2 sample_calldata).
Proof.
  apply (deployment_and_transaction_messages_differ
           (EthersSign.address sample_signer) sample_token sample_safe
           sample_safe sample_token sample_calldata);
    vm_compute; reflexivity.
Defined.

Lemma approval_is_signed_approve_transaction_witness :
  createApprovalSignatures sample_signer sample_safe POLYGON_CONTRACTS
  = option_map
      (fun tx => {| usdcApproval := Some (signature tx);
                    ctfApproval := None;
                    conditionalTokensApproval := None |})
      (buildSafeTransaction sample_signer sample_safe
         (Js.lit "0x2791Bca1f2de4661ED88A30C99A7a9449Aa84174")
         (hexlify (approve_data 0x4bFb41d5B3570DeFd03C39a9A4D8dE6Bd8B8982E))).
Proof.
  apply (approval_is_signed_approve_transaction sample_signer sample_safe POLYGON_CONTRACTS);
    reflexivity.
Defined.

Lemma approvals_only_for_usdc_witness :
  let r := {| usdcApproval := None; ctfApproval := None;
              conditionalTokensApproval := None |} in
  ctfApproval r = None /\ conditionalTokensApproval r = None /\
  (usdc contracts_without_exchange = None \/ ctfExchange contracts_without_exchange = None
   -> usdcApproval r = None).
Proof.
  apply (approvals_only_for_usdc sample_signer sample_safe contracts_without_exchange).
  reflexivity.
Defined.

Lemma recover_generated_wallet_witness :
  exists g,
    generateWallet sample_vault sample_wallet sample_iv = Ok g /\
    generated_address g = KeyGenerator.address sample_wallet /\
    recoverWallet sample_new_Wallet sample_vault (encryptedKey g)
    = Ok {| wallet := sample_wallet; recovered_address := generated_address g |}.
Proof.
  apply (recover_generated_wallet sample_vault sample_iv eq_refl sample_vault_wf eq_refl
                                  sample_iv_wf sample_new_Wallet sample_wallet
                                  sample_random32).
  - exact sample_random32_wf.
  - reflexivity.
  - vm_compute. reflexivity.
Defined.

Lemma executeTransaction_of_built_witness :
  executeTransaction sample_fetch createPolymarketRelayer
    {| exec_safeAddress := sample_safe; exec_to := sample_token;
       exec_data := sample_calldata;
       exec_ownerAddress := EthersSign.address sample_signer;
       exec_signature := signature sample_transaction |}
  = relay_with sample_fetch createPolymarketRelayer sample_transaction
  /\ exists r, relay_with sample_fetch createPolymarketRelayer sample_transaction = Return r.
Proof.
  apply (executeTransaction_of_built sample_fetch createPolymarketRelayer sample_signer
                                     sample_safe sample_token sample_calldata).
  vm_compute. reflexivity.
Defined.

Example approve_selector_hex :
  Js.to_hex (sighash approve_fragment) = Js.lit "095ea7b3".
Proof. vm_compute. reflexivity. Qed.

Example relay_request_sample :
  body (relay_request createPolymarketRelayer
          {| from := Js.lit "0xaa"; to := Js.lit "0xbb"; proxyWallet := Js.lit "0xcc";
             data := Js.lit "0x"; signature := Js.lit "0xdd" |})
  = [123; 34] ++ Js.lit "from" ++ [34; 58; 34] ++ Js.lit "0xaa" ++ [34; 44; 34]
      ++ Js.lit "to" ++ [34; 58; 34] ++ Js.lit "0xbb" ++ [34; 44; 34]
      ++ Js.lit "proxyWallet" ++ [34; 58; 34] ++ Js.lit "0xcc" ++ [34; 44; 34]
      ++ Js.lit "data" ++ [34; 58; 34] ++ Js.lit "0x" ++ [34; 44; 34]
      ++ Js.lit "signature" ++ [34; 58; 34] ++ Js.lit "0xdd" ++ [34; 125]
  /\ url (relay_request createPolymarketRelayer
            {| from := Js.lit "0xaa"; to := Js.lit "0xbb"; proxyWallet := Js.lit "0xcc";
               data := Js.lit "0x"; signature := Js.lit "0xdd" |})
     = Js.lit "https://relayer.polymarket.com/relay".
Proof. vm_compute. split; reflexivity. Qed.

End MoreExamples.
